(** * Signature: the map-node entity of rtabmap (corelib/src/Signature.cpp)

  A shallow embedding of [rtabmap::Signature] and of its mutators, and the
  properties of the node that its description states: edge bookkeeping,
  the lock-step of the two feature maps, word re-labelling, the depth
  precondition and the similarity score. *)

From Stdlib Require Import ZArith List Bool Lia Permutation Sorted.
From Stdlib Require Import Init.Byte.
From Stdlib Require Import Floats.SpecFloat.
From stdpp Require Import base option gmap sorting.

Local Open Scope Z_scope.

(** ** C scalars *)

(** [float] is IEEE 754 binary32: 24 bits of precision, infinities at
  exponent 128.  Values are [spec_float]; the operations are the ones of
  [SpecFloat] at that format (round to nearest, ties to even). *)
Module F32.

Definition prec : Z := 24.
Definition emax : Z := 128.

Definition float : Type := spec_float.

(** [0.0f] *)
Definition zero : float := S754_zero false.

(** [a > b] and [a >= b]: false as soon as one side is a NaN. *)
Definition gt (a b : float) : bool := SFltb b a.
Definition ge (a b : float) : bool := SFleb b a.

(** [float(n)] for an integer [n]. *)
Definition of_Z (n : Z) : float := binary_normalize prec emax n 0 false.

(** [a / b] *)
Definition div (a b : float) : float := SFdiv prec emax a b.

End F32.

(** [int] is 32 bits wide; a [size_t] stored into an [int] is reduced
  modulo 2^32 into the signed range. *)
Definition INT_MAX : Z := 2147483647.

Definition int_of_size (n : Z) : Z :=
  let r := n mod 4294967296 in
  if r <=? INT_MAX then r else r - 4294967296.

(** ** std::map<int, V> with unique keys *)

Section StdMap.
Context {V : Type}.

(** [m.insert(std::pair(k, v))]: the map after the call and the [second]
    of the returned pair, which tells whether the insertion took place.
    An existing key keeps its value. *)
Definition map_insert (k : Z) (v : V) (m : gmap Z V) : gmap Z V * bool :=
  match m !! k with
  | Some _ => (m, false)
  | None => (<[k:=v]> m, true)
  end.

(** [m.erase(k)]: the map after the call and the number of entries
    removed. *)
Definition map_erase (k : Z) (m : gmap Z V) : gmap Z V * Z :=
  match m !! k with
  | Some _ => (delete k m, 1)
  | None => (m, 0)
  end.

(** The entries in iteration order, [begin()] to [end()]: by ascending
    key. *)
Definition map_entries (m : gmap Z V) : list (Z * V) :=
  @merge_sort (Z * V) (fun x y => x.1 <= y.1)
    (fun x y => decide (x.1 <= y.1)) (map_to_list m).

End StdMap.

(** ** std::multimap<int, V>

  The entries in iteration order: ascending keys, entries of one key in
  insertion order. *)

Definition multimap (V : Type) : Type := list (Z * V).

Section MultiMap.
Context {V : Type}.

(** [m.insert(std::pair(k, v))]: the entry goes after the last entry
    whose key is not greater than [k]. *)
Fixpoint mm_insert (k : Z) (v : V) (m : multimap V) : multimap V :=
  match m with
  | [] => [(k, v)]
  | (k', v') :: m' =>
      if k <? k' then (k, v) :: (k', v') :: m'
      else (k', v') :: mm_insert k v m'
  end.

(** [m.erase(k)]: every entry under [k] is removed. *)
Fixpoint mm_erase (k : Z) (m : multimap V) : multimap V :=
  match m with
  | [] => []
  | (k', v') :: m' =>
      if k' =? k then mm_erase k m' else (k', v') :: mm_erase k m'
  end.

(** [m.count(k)] *)
Fixpoint mm_count (k : Z) (m : multimap V) : nat :=
  match m with
  | [] => O
  | (k', _) :: m' => if k' =? k then S (mm_count k m') else mm_count k m'
  end.

(** [m.size()] *)
Definition mm_size (m : multimap V) : Z := Z.of_nat (length m).

(** Modelled from the spec: [uValues] is a helper of UtiLite, whose
    header lies outside corelib/src; "collect every entry under
    [oldId]": the values stored under [k], in iteration order. *)
Fixpoint uValues (m : multimap V) (k : Z) : list V :=
  match m with
  | [] => []
  | (k', v') :: m' => if k' =? k then v' :: uValues m' k else uValues m' k
  end.

(** The loop [for (iter = vs.begin(); iter != vs.end(); ++iter)
    m.insert(std::pair(k, *iter))]. *)
Fixpoint mm_insert_all (k : Z) (vs : list V) (m : multimap V) : multimap V :=
  match vs with
  | [] => m
  | v :: vs' => mm_insert_all k vs' (mm_insert k v m)
  end.

(** The iteration order is by ascending key. *)
Definition mm_ordered (m : multimap V) : Prop := Sorted Z.le (map fst m).

End MultiMap.

(** ** Outcome of a call that may hit a fatal assertion *)

(** Modelled from the spec: [UASSERT_MSG] is a macro of UtiLite, whose
    header lies outside corelib/src; a condition that does not
    hold is "an assertion-style hard failure": the call does not return
    and the node is not updated. *)
Inductive outcome (A : Type) : Type :=
| Done (a : A)
| Fatal.

Arguments Done {A} a.
Arguments Fatal {A}.

(** ** The node *)

Section Node.

(** [Transform], [cv::KeyPoint] and [pcl::PointXYZ] are declared outside
    the file; the node only stores and copies them. *)
Context {Transform KeyPoint PointXYZ : Type}.

(** Modelled from the spec: the container of [_wordsChanged] is declared
    in Signature.h, which lies outside corelib/src; it is "an
    append-only ledger mapping an old identifier to the new identifier it
    was remapped to", which grows with every remap: entries in key order,
    several entries per old identifier allowed. *)
Definition ledger : Type := multimap Z.

Record Signature : Type := mkSignature {
  _id : Z;
  _mapId : Z;
  _weight : Z;
  _neighbors : gmap Z Transform;
  _loopClosureIds : gmap Z Transform;
  _childLoopClosureIds : gmap Z Transform;
  _saved : bool;
  _modified : bool;
  _neighborsModified : bool;
  _words : multimap KeyPoint;
  _wordsChanged : ledger;
  _enabled : bool;
  _image : list byte;
  _depth : list byte;
  _depth2D : list byte;
  _fx : F32.float;
  _fy : F32.float;
  _cx : F32.float;
  _cy : F32.float;
  _pose : Transform;
  _localTransform : Transform;
  _words3 : multimap PointXYZ
}.

(** Assignments to one member, the others kept. *)
Definition set_neighbors (m : gmap Z Transform) (s : Signature) : Signature :=
  mkSignature (_id s) (_mapId s) (_weight s) m (_loopClosureIds s)
    (_childLoopClosureIds s) (_saved s) (_modified s) (_neighborsModified s)
    (_words s) (_wordsChanged s) (_enabled s) (_image s) (_depth s)
    (_depth2D s) (_fx s) (_fy s) (_cx s) (_cy s) (_pose s)
    (_localTransform s) (_words3 s).

Definition set_loopClosureIds (m : gmap Z Transform) (s : Signature) : Signature :=
  mkSignature (_id s) (_mapId s) (_weight s) (_neighbors s) m
    (_childLoopClosureIds s) (_saved s) (_modified s) (_neighborsModified s)
    (_words s) (_wordsChanged s) (_enabled s) (_image s) (_depth s)
    (_depth2D s) (_fx s) (_fy s) (_cx s) (_cy s) (_pose s)
    (_localTransform s) (_words3 s).

Definition set_childLoopClosureIds (m : gmap Z Transform) (s : Signature) : Signature :=
  mkSignature (_id s) (_mapId s) (_weight s) (_neighbors s)
    (_loopClosureIds s) m (_saved s) (_modified s) (_neighborsModified s)
    (_words s) (_wordsChanged s) (_enabled s) (_image s) (_depth s)
    (_depth2D s) (_fx s) (_fy s) (_cx s) (_cy s) (_pose s)
    (_localTransform s) (_words3 s).

Definition set_neighborsModified (b : bool) (s : Signature) : Signature :=
  mkSignature (_id s) (_mapId s) (_weight s) (_neighbors s)
    (_loopClosureIds s) (_childLoopClosureIds s) (_saved s) (_modified s) b
    (_words s) (_wordsChanged s) (_enabled s) (_image s) (_depth s)
    (_depth2D s) (_fx s) (_fy s) (_cx s) (_cy s) (_pose s)
    (_localTransform s) (_words3 s).

Definition set_words (w : multimap KeyPoint) (s : Signature) : Signature :=
  mkSignature (_id s) (_mapId s) (_weight s) (_neighbors s)
    (_loopClosureIds s) (_childLoopClosureIds s) (_saved s) (_modified s)
    (_neighborsModified s) w (_wordsChanged s) (_enabled s) (_image s)
    (_depth s) (_depth2D s) (_fx s) (_fy s) (_cx s) (_cy s) (_pose s)
    (_localTransform s) (_words3 s).

Definition set_words3 (w : multimap PointXYZ) (s : Signature) : Signature :=
  mkSignature (_id s) (_mapId s) (_weight s) (_neighbors s)
    (_loopClosureIds s) (_childLoopClosureIds s) (_saved s) (_modified s)
    (_neighborsModified s) (_words s) (_wordsChanged s) (_enabled s)
    (_image s) (_depth s) (_depth2D s) (_fx s) (_fy s) (_cx s) (_cy s)
    (_pose s) (_localTransform s) w.

Definition set_wordsChanged (l : ledger) (s : Signature) : Signature :=
  mkSignature (_id s) (_mapId s) (_weight s) (_neighbors s)
    (_loopClosureIds s) (_childLoopClosureIds s) (_saved s) (_modified s)
    (_neighborsModified s) (_words s) l (_enabled s) (_image s) (_depth s)
    (_depth2D s) (_fx s) (_fy s) (_cx s) (_cy s) (_pose s)
    (_localTransform s) (_words3 s).

Definition set_depth (d : list byte) (s : Signature) : Signature :=
  mkSignature (_id s) (_mapId s) (_weight s) (_neighbors s)
    (_loopClosureIds s) (_childLoopClosureIds s) (_saved s) (_modified s)
    (_neighborsModified s) (_words s) (_wordsChanged s) (_enabled s)
    (_image s) d (_depth2D s) (_fx s) (_fy s) (_cx s) (_cy s) (_pose s)
    (_localTransform s) (_words3 s).

Definition set_fx (x : F32.float) (s : Signature) : Signature :=
  mkSignature (_id s) (_mapId s) (_weight s) (_neighbors s)
    (_loopClosureIds s) (_childLoopClosureIds s) (_saved s) (_modified s)
    (_neighborsModified s) (_words s) (_wordsChanged s) (_enabled s)
    (_image s) (_depth s) (_depth2D s) x (_fy s) (_cx s) (_cy s) (_pose s)
    (_localTransform s) (_words3 s).

Definition set_fy (x : F32.float) (s : Signature) : Signature :=
  mkSignature (_id s) (_mapId s) (_weight s) (_neighbors s)
    (_loopClosureIds s) (_childLoopClosureIds s) (_saved s) (_modified s)
    (_neighborsModified s) (_words s) (_wordsChanged s) (_enabled s)
    (_image s) (_depth s) (_depth2D s) (_fx s) x (_cx s) (_cy s) (_pose s)
    (_localTransform s) (_words3 s).

Definition set_cx (x : F32.float) (s : Signature) : Signature :=
  mkSignature (_id s) (_mapId s) (_weight s) (_neighbors s)
    (_loopClosureIds s) (_childLoopClosureIds s) (_saved s) (_modified s)
    (_neighborsModified s) (_words s) (_wordsChanged s) (_enabled s)
    (_image s) (_depth s) (_depth2D s) (_fx s) (_fy s) x (_cy s) (_pose s)
    (_localTransform s) (_words3 s).

Definition set_cy (x : F32.float) (s : Signature) : Signature :=
  mkSignature (_id s) (_mapId s) (_weight s) (_neighbors s)
    (_loopClosureIds s) (_childLoopClosureIds s) (_saved s) (_modified s)
    (_neighborsModified s) (_words s) (_wordsChanged s) (_enabled s)
    (_image s) (_depth s) (_depth2D s) (_fx s) (_fy s) (_cx s) x (_pose s)
    (_localTransform s) (_words3 s).

(** The constructor: the three edge maps and the ledger start empty. *)
Definition Signature_new (id mapId : Z) (words : multimap KeyPoint)
    (words3 : multimap PointXYZ) (pose : Transform)
    (depth2D image depth : list byte) (fx fy cx cy : F32.float)
    (localTransform : Transform) : Signature :=
  {| _id := id; _mapId := mapId; _weight := 0;
     _neighbors := ∅; _loopClosureIds := ∅; _childLoopClosureIds := ∅;
     _saved := false; _modified := true; _neighborsModified := true;
     _words := words; _wordsChanged := []; _enabled := false;
     _image := image; _depth := depth; _depth2D := depth2D;
     _fx := fx; _fy := fy; _cx := cx; _cy := cy;
     _pose := pose; _localTransform := localTransform;
     _words3 := words3 |}.

(** *** Neighbor edges *)

Definition addNeighbor (neighbor : Z) (transform : Transform) (s : Signature)
    : Signature :=
  let s1 := set_neighbors (map_insert neighbor transform (_neighbors s)).1 s in
  set_neighborsModified true s1.

Definition removeNeighbor (neighborId : Z) (s : Signature) : Signature :=
  let '(m, count) := map_erase neighborId (_neighbors s) in
  let s1 := set_neighbors m s in
  if negb (count =? 0) then set_neighborsModified true s1 else s1.

Definition removeNeighbors (s : Signature) : Signature :=
  let s1 :=
    if negb (Z.of_nat (size (_neighbors s)) =? 0)
    then set_neighborsModified true s else s in
  set_neighbors ∅ s1.

Definition changeNeighborIds (idFrom idTo : Z) (s : Signature) : Signature :=
  match _neighbors s !! idFrom with
  | Some t =>
      let s1 := set_neighbors (delete idFrom (_neighbors s)) s in
      let s2 := set_neighbors (map_insert idTo t (_neighbors s1)).1 s1 in
      set_neighborsModified true s2
  | None => s
  end.

(** The loop of [addNeighbors] over the entries of its argument. *)
Definition addNeighbors (neighbors : gmap Z Transform) (s : Signature)
    : Signature :=
  foldl (fun s0 i => addNeighbor i.1 i.2 s0) s (map_entries neighbors).

(** *** Loop-closure edges *)

Definition addLoopClosureId (loopClosureId : Z) (transform : Transform)
    (s : Signature) : Signature :=
  if loopClosureId =? 0 then s
  else
    let '(m, inserted) := map_insert loopClosureId transform (_loopClosureIds s) in
    let s1 := set_loopClosureIds m s in
    if inserted then set_neighborsModified true s1 else s1.

Definition addChildLoopClosureId (childLoopClosureId : Z)
    (transform : Transform) (s : Signature) : Signature :=
  if childLoopClosureId =? 0 then s
  else
    let '(m, inserted) :=
      map_insert childLoopClosureId transform (_childLoopClosureIds s) in
    let s1 := set_childLoopClosureIds m s in
    if inserted then set_neighborsModified true s1 else s1.

Definition changeLoopClosureId (idFrom idTo : Z) (s : Signature) : Signature :=
  match _loopClosureIds s !! idFrom with
  | Some t =>
      let s1 := set_loopClosureIds (delete idFrom (_loopClosureIds s)) s in
      let s2 :=
        set_loopClosureIds (map_insert idTo t (_loopClosureIds s1)).1 s1 in
      set_neighborsModified true s2
  | None => s
  end.

(** *** Similarity *)

(** [EpipolarGeometry::findPairs] is an external collaborator: from two
    word maps to the list of correspondences it appends to its (empty)
    output argument. *)
Definition pairer : Type :=
  multimap KeyPoint -> multimap KeyPoint -> list (Z * (KeyPoint * KeyPoint)).

Definition compareTo (findPairs : pairer) (this s : Signature) : F32.float :=
  let similarity := F32.zero in
  let words := _words s in
  if negb (mm_size words =? 0) && negb (mm_size (_words this) =? 0) then
    let totalWords :=
      int_of_size (if mm_size (_words this) >? mm_size words
                   then mm_size (_words this) else mm_size words) in
    let pairs := findPairs words (_words this) in
    F32.div (F32.of_Z (Z.of_nat (length pairs))) (F32.of_Z totalWords)
  else similarity.

(** *** Words *)

Definition changeWordsRef (oldWordId activeWordId : Z) (s : Signature)
    : Signature :=
  let kps := uValues (_words s) oldWordId in
  if negb (Z.of_nat (length kps) =? 0) then
    let pts := uValues (_words3 s) oldWordId in
    let s1 := set_words (mm_erase oldWordId (_words s)) s in
    let s2 := set_words3 (mm_erase oldWordId (_words3 s1)) s1 in
    let s3 :=
      set_wordsChanged (mm_insert oldWordId activeWordId (_wordsChanged s2)) s2 in
    let s4 := set_words (mm_insert_all activeWordId kps (_words s3)) s3 in
    set_words3 (mm_insert_all activeWordId pts (_words3 s4)) s4
  else s.

Definition isBadSignature (s : Signature) : bool :=
  mm_size (_words s) =? 0.

Definition removeAllWords (s : Signature) : Signature :=
  set_words3 [] (set_words [] s).

Definition removeWord (wordId : Z) (s : Signature) : Signature :=
  let s1 := set_words (mm_erase wordId (_words s)) s in
  set_words3 (mm_erase wordId (_words3 s1)) s1.

(** *** Depth *)

Definition is_empty (d : list byte) : bool :=
  match d with [] => true | _ :: _ => false end.

Definition setDepth (depth : list byte) (fx fy cx cy : F32.float)
    (s : Signature) : outcome Signature :=
  if is_empty depth
     || (negb (is_empty depth) && F32.gt fx F32.zero && F32.gt fy F32.zero
         && F32.ge cx F32.zero && F32.ge cy F32.zero)
  then Done (set_cy cy (set_cx cx (set_fy fy (set_fx fx (set_depth depth s)))))
  else Fatal.

(** The co-validity rule of the depth buffer and the intrinsics, with the
    comparisons of [float]. *)
Definition valid_intrinsics (fx fy cx cy : F32.float) : Prop :=
  F32.gt fx F32.zero = true /\ F32.gt fy F32.zero = true
  /\ F32.ge cx F32.zero = true /\ F32.ge cy F32.zero = true.

Definition depth_precondition (depth : list byte) (fx fy cx cy : F32.float)
    : Prop :=
  depth = [] \/ valid_intrinsics fx fy cx cy.

(** The two feature maps are in lock-step: the same number of entries
    under every identifier. *)
Definition words_in_step (s : Signature) : Prop :=
  forall k : Z, mm_count k (_words s) = mm_count k (_words3 s).

(** Two states of a node that agree on identity, weight, poses, buffers,
    intrinsics and the flags [saved], [modified] and [enabled]. *)
Definition same_payload (s s' : Signature) : Prop :=
  _id s' = _id s /\ _mapId s' = _mapId s /\ _weight s' = _weight s
  /\ _saved s' = _saved s /\ _modified s' = _modified s
  /\ _enabled s' = _enabled s
  /\ _image s' = _image s /\ _depth s' = _depth s /\ _depth2D s' = _depth2D s
  /\ _fx s' = _fx s /\ _fy s' = _fy s /\ _cx s' = _cx s /\ _cy s' = _cy s
  /\ _pose s' = _pose s /\ _localTransform s' = _localTransform s.

(** ... that agree on the two feature maps and the ledger. *)
Definition same_words (s s' : Signature) : Prop :=
  _words s' = _words s /\ _words3 s' = _words3 s
  /\ _wordsChanged s' = _wordsChanged s.

(** ... that agree on the three edge maps and on [neighborsModified]. *)
Definition same_edges (s s' : Signature) : Prop :=
  _neighbors s' = _neighbors s /\ _loopClosureIds s' = _loopClosureIds s
  /\ _childLoopClosureIds s' = _childLoopClosureIds s
  /\ _neighborsModified s' = _neighborsModified s.

End Node.

Arguments Signature : clear implicits.
Arguments pairer : clear implicits.

(** ** Concrete nodes

    Transforms, key points and 3D points are tagged by integers here, so
    that the operations can be run. *)

Definition node0 : Signature Z Z Z :=
  Signature_new 1 0 [(5, 50); (7, 70)] [(5, 51); (7, 71)] 0 [] [] []
    F32.zero F32.zero F32.zero F32.zero 0.

Definition node1 : Signature Z Z Z :=
  Signature_new 2 0 [(5, 52)] [(5, 53)] 0 [] [] []
    F32.zero F32.zero F32.zero F32.zero 0.

(** [node0] with the edges 1 -> 10 and 2 -> 20 in each edge map. *)
Definition node12 : Signature Z Z Z :=
  set_childLoopClosureIds {[ 1 := 10; 2 := 20 ]}
    (set_loopClosureIds {[ 1 := 10; 2 := 20 ]}
       (set_neighborsModified false
          (set_neighbors {[ 1 := 10; 2 := 20 ]} node0))).

(** A node without words, and a depth payload. *)
Definition node_empty : Signature Z Z Z :=
  Signature_new 3 0 [] [] 0 [] [] []
    F32.zero F32.zero F32.zero F32.zero 0.

Definition depth3 : list byte := [x01; x02; x03].

(** A node with 2^31 words, all under the identifier 0, and a node with
    one word under that identifier. *)
Definition big_words : multimap Z := List.repeat (0, 0) (Z.to_nat 2147483648).

Definition node_big : Signature Z Z Z :=
  Signature_new 4 0 big_words [] 0 [] [] []
    F32.zero F32.zero F32.zero F32.zero 0.

Definition node_one : Signature Z Z Z :=
  Signature_new 5 0 [(0, 0)] [] 0 [] [] []
    F32.zero F32.zero F32.zero F32.zero 0.

(** A pairer that looks at the first entry of each map only: one
    correspondence when they share their identifier. *)
Definition first_pairer : pairer Z :=
  fun a b =>
    match a, b with
    | (k, v) :: _, (k', w) :: _ => if k =? k' then [(k, (v, w))] else []
    | _, _ => []
    end.

(** A pairer: one correspondence for each entry of the first map whose
    identifier occurs in the second one. *)
Definition sample_pairer : pairer Z :=
  fun a b =>
    flat_map (fun '(k, v) =>
                match uValues b k with
                | w :: _ => [(k, (v, w))]
                | [] => []
                end) a.

(** ** Facts on multimaps *)

Section MultiMapFacts.
Context {V : Type}.
Implicit Types (m : multimap V) (k : Z) (v : V).

Lemma length_uValues m k : length (uValues m k) = mm_count k m.
Proof.
  induction m as [|[k' v'] m IH]; simpl; [reflexivity|].
  destruct (k' =? k); simpl; congruence.
Qed.

Lemma mm_count_insert k k' v m :
  mm_count k (mm_insert k' v m)
  = ((if (k' =? k)%Z then 1 else 0) + mm_count k m)%nat.
Proof.
  induction m as [|[k0 v0] m IH]; simpl.
  - destruct (k' =? k); reflexivity.
  - destruct (k' <? k0); simpl.
    + destruct (k' =? k), (k0 =? k); reflexivity.
    + rewrite IH. destruct (k' =? k), (k0 =? k); simpl; lia.
Qed.

Lemma mm_count_erase k k' m :
  mm_count k (mm_erase k' m) = if k' =? k then O else mm_count k m.
Proof.
  induction m as [|[k0 v0] m IH]; simpl.
  - destruct (k' =? k); reflexivity.
  - destruct (Z.eqb_spec k0 k') as [->|Hne]; simpl.
    + rewrite IH. destruct (k' =? k); reflexivity.
    + rewrite IH. destruct (Z.eqb_spec k' k) as [->|Hne'].
      * destruct (Z.eqb_spec k0 k); [contradiction|reflexivity].
      * reflexivity.
Qed.

Lemma mm_count_insert_all k k' (vs : list V) m :
  mm_count k (mm_insert_all k' vs m)
  = ((if (k' =? k)%Z then length vs else 0) + mm_count k m)%nat.
Proof.
  revert m. induction vs as [|v vs IH]; intros m; simpl.
  - destruct (k' =? k); reflexivity.
  - rewrite IH, mm_count_insert. destruct (k' =? k); simpl; lia.
Qed.

(** An inserted entry is one more entry, wherever it lands. *)
Lemma mm_insert_perm k v m : Permutation (mm_insert k v m) ((k, v) :: m).
Proof.
  induction m as [|[k0 v0] m IH]; simpl; [reflexivity|].
  destruct (k <? k0); [reflexivity|].
  rewrite IH. apply perm_swap.
Qed.

Lemma mm_insert_all_perm k (vs : list V) m :
  Permutation (mm_insert_all k vs m) (m ++ map (pair k) vs).
Proof.
  revert m. induction vs as [|v vs IH]; intros m; simpl.
  - by rewrite app_nil_r.
  - rewrite IH, mm_insert_perm. simpl.
    apply Permutation_middle.
Qed.

Lemma uValues_app m m' k : uValues (m ++ m') k = uValues m k ++ uValues m' k.
Proof.
  induction m as [|[k0 v0] m IH]; simpl; [reflexivity|].
  destruct (k0 =? k); simpl; congruence.
Qed.

Lemma uValues_perm m m' k :
  Permutation m m' -> Permutation (uValues m k) (uValues m' k).
Proof.
  induction 1 as [|[k0 v0] l l' _ IH|[k0 v0] [k1 v1] l|l l' l'' _ IH1 _ IH2];
    simpl.
  - reflexivity.
  - destruct (k0 =? k); [by constructor|assumption].
  - destruct (k0 =? k), (k1 =? k); try reflexivity. apply perm_swap.
  - by rewrite IH1.
Qed.

Lemma uValues_tagged k k' (vs : list V) :
  uValues (map (pair k') vs) k = if k' =? k then vs else [].
Proof.
  induction vs as [|v vs IH]; simpl.
  - by destruct (k' =? k).
  - rewrite IH. by destruct (k' =? k).
Qed.

Lemma uValues_erase k k' m :
  uValues (mm_erase k' m) k = if k' =? k then [] else uValues m k.
Proof.
  induction m as [|[k0 v0] m IH]; simpl.
  - by destruct (k' =? k).
  - destruct (Z.eqb_spec k0 k') as [->|Hne]; simpl.
    + rewrite IH. by destruct (k' =? k).
    + rewrite IH. destruct (Z.eqb_spec k' k) as [->|Hne'].
      * by destruct (Z.eqb_spec k0 k).
      * reflexivity.
Qed.

(** Entries under other identifiers keep their values and their order. *)
Lemma uValues_insert_ne k k' v m :
  k' <> k -> uValues (mm_insert k' v m) k = uValues m k.
Proof.
  intros Hne. induction m as [|[k0 v0] m IH]; simpl.
  - by destruct (Z.eqb_spec k' k).
  - destruct (k' <? k0); simpl.
    + by destruct (Z.eqb_spec k' k).
    + by rewrite IH.
Qed.

Lemma uValues_insert_all_ne k k' (vs : list V) m :
  k' <> k -> uValues (mm_insert_all k' vs m) k = uValues m k.
Proof.
  intros Hne. revert m. induction vs as [|v vs IH]; intros m; simpl.
  - reflexivity.
  - by rewrite IH, uValues_insert_ne.
Qed.

Lemma mm_insert_ordered k v m : mm_ordered m -> mm_ordered (mm_insert k v m).
Proof.
  unfold mm_ordered. induction m as [|[k0 v0] m IH]; simpl; intros Hs.
  - repeat constructor.
  - apply Sorted_inv in Hs as [Hs Hhd].
    destruct (Z.ltb_spec k k0) as [Hlt|Hge]; simpl.
    + constructor; [constructor; assumption|]. constructor. simpl. lia.
    + constructor; [by apply IH|].
      destruct m as [|[k1 v1] m]; simpl in *.
      * constructor. lia.
      * apply HdRel_inv in Hhd.
        destruct (k <? k1); constructor; simpl; lia.
Qed.

Lemma mm_erase_ordered k m : mm_ordered m -> mm_ordered (mm_erase k m).
Proof.
  unfold mm_ordered. intros Hs.
  apply Sorted_StronglySorted in Hs; [|intros x y z; lia].
  apply StronglySorted_Sorted.
  induction m as [|[k0 v0] m IH]; simpl; [constructor|].
  apply StronglySorted_inv in Hs as [Hs Hall].
  destruct (k0 =? k); simpl; [by apply IH|].
  constructor; [by apply IH|].
  clear IH Hs. induction m as [|[k1 v1] m IH]; simpl in *; [constructor|].
  apply Forall_cons_iff in Hall as [H1 Hall].
  destruct (k1 =? k); simpl; [by apply IH|constructor; [assumption|by apply IH]].
Qed.

(** In an ordered multimap a new entry comes last among the entries of its
    identifier. *)
Lemma uValues_insert_eq k v m :
  mm_ordered m -> uValues (mm_insert k v m) k = uValues m k ++ [v].
Proof.
  unfold mm_ordered. intros Hs.
  apply Sorted_StronglySorted in Hs; [|intros x y z; lia].
  induction m as [|[k0 v0] m IH]; simpl.
  - by rewrite Z.eqb_refl.
  - apply StronglySorted_inv in Hs as [Hs Hall].
    destruct (Z.ltb_spec k k0) as [Hlt|Hge]; simpl.
    + rewrite Z.eqb_refl. destruct (Z.eqb_spec k0 k) as [->|_]; [lia|].
      f_equal. clear IH Hs. simpl in Hall.
      induction m as [|[k1 v1] m IH]; simpl in *; [reflexivity|].
      apply Forall_cons_iff in Hall as [H1 Hall].
      destruct (Z.eqb_spec k1 k) as [->|_]; [lia|by apply IH].
    + rewrite (IH Hs). by destruct (k0 =? k).
Qed.

Lemma mm_insert_all_ordered k (vs : list V) m :
  mm_ordered m -> mm_ordered (mm_insert_all k vs m).
Proof.
  revert m. induction vs as [|v vs IH]; intros m Hm; simpl; [assumption|].
  by apply IH, mm_insert_ordered.
Qed.

Lemma uValues_insert_all_eq k (vs : list V) m :
  mm_ordered m -> uValues (mm_insert_all k vs m) k = uValues m k ++ vs.
Proof.
  revert m. induction vs as [|v vs IH]; intros m Hm; simpl.
  - by rewrite app_nil_r.
  - rewrite IH by (by apply mm_insert_ordered).
    rewrite uValues_insert_eq by assumption. by rewrite <- app_assoc.
Qed.

End MultiMapFacts.

(** ** Facts on the C scalars *)

Lemma int_of_size_small (n : Z) : 0 <= n <= INT_MAX -> int_of_size n = n.
Proof.
  unfold int_of_size, INT_MAX. intros Hn.
  rewrite Z.mod_small by lia.
  destruct (Z.leb_spec n 2147483647); [reflexivity|lia].
Qed.

Lemma mm_size_zero {V : Type} (m : multimap V) : (mm_size m =? 0) = true <-> m = [].
Proof.
  unfold mm_size. destruct m; simpl; split; try reflexivity; try discriminate.
Qed.

(** ** Facts on [std::map] *)

Section StdMapFacts.
Context {V : Type}.
Implicit Types (m : gmap Z V) (k : Z) (v : V).

Lemma map_insert_fresh k v m :
  m !! k = None -> map_insert k v m = (<[k:=v]> m, true).
Proof. unfold map_insert. by intros ->. Qed.

Lemma map_insert_taken k v m :
  is_Some (m !! k) -> map_insert k v m = (m, false).
Proof. unfold map_insert. by intros [v' ->]. Qed.

End StdMapFacts.

(** ** Edges of the node *)

Section EdgeFacts.
Context {Transform KeyPoint PointXYZ : Type}.
Local Abbreviation node := (Signature Transform KeyPoint PointXYZ).
Implicit Types (s : node) (t : Transform).

(** Writing back what a member already holds changes nothing. *)
Lemma set_neighbors_same s : set_neighbors (_neighbors s) s = s.
Proof. by destruct s. Qed.

Lemma set_loopClosureIds_same s : set_loopClosureIds (_loopClosureIds s) s = s.
Proof. by destruct s. Qed.

Lemma set_childLoopClosureIds_same s :
  set_childLoopClosureIds (_childLoopClosureIds s) s = s.
Proof. by destruct s. Qed.

(** C1, as amended: [addNeighbor] always raises [neighborsModified]; it
    stores the transform when the node has no edge to that id, and leaves
    the edge map as it is, the stored transform included, when it has
    one. *)
Theorem addNeighbor_keeps_existing s (id : Z) t :
  let s' := addNeighbor id t s in
  _neighborsModified s' = true
  /\ (_neighbors s !! id = None -> _neighbors s' = <[id:=t]> (_neighbors s))
  /\ (forall t0, _neighbors s !! id = Some t0 ->
        _neighbors s' = _neighbors s /\ _neighbors s' !! id = Some t0).
Proof.
  simpl. split; [reflexivity|]. unfold addNeighbor; simpl. split.
  - intros Hnone. by rewrite map_insert_fresh.
  - intros t0 Hsome. rewrite map_insert_taken by eauto. by simpl.
Qed.

(** C8: [removeNeighbor] erases the edge, raises [neighborsModified] exactly
    when an edge was there and otherwise keeps the flag, and a second call
    with the same id changes nothing more. *)
Theorem removeNeighbor_flag_only_on_removal s (k : Z) :
  let s' := removeNeighbor k s in
  _neighbors s' = delete k (_neighbors s)
  /\ _neighborsModified s'
     = bool_decide (is_Some (_neighbors s !! k)) || _neighborsModified s
  /\ removeNeighbor k s' = s'.
Proof.
  simpl. unfold removeNeighbor, map_erase.
  destruct (_neighbors s !! k) as [t|] eqn:E; simpl.
  - rewrite lookup_delete_eq. repeat split; reflexivity.
  - rewrite E. repeat split; try reflexivity. symmetry. by apply delete_id.
Qed.

(** C7, as amended: without an edge to [a] the node is left as it is; with
    an edge [a -> t] the flag is raised and the edge to [a] is erased; [t] is
    then stored under [b] when [b] is [a] or has no edge, and an edge that
    [b] already has keeps its own transform. *)
Theorem changeNeighborIds_moves_unless_taken s (a b : Z) :
  let s' := changeNeighborIds a b s in
  (_neighbors s !! a = None -> s' = s)
  /\ (forall t, _neighbors s !! a = Some t ->
        _neighborsModified s' = true
        /\ (b = a \/ _neighbors s !! b = None ->
              _neighbors s' = <[b:=t]> (delete a (_neighbors s)))
        /\ (forall t', b <> a -> _neighbors s !! b = Some t' ->
              _neighbors s' = delete a (_neighbors s)
              /\ _neighbors s' !! b = Some t')).
Proof.
  simpl. unfold changeNeighborIds. split.
  - by intros ->.
  - intros t ->. simpl. split; [reflexivity|]. split.
    + intros Hb. rewrite map_insert_fresh; [reflexivity|].
      destruct Hb as [->|Hb]; [apply lookup_delete_eq|].
      rewrite lookup_delete. case_decide; [reflexivity|assumption].
    + intros t' Hne Hb.
      assert (delete a (_neighbors s) !! b = Some t') as Hb'
        by (by rewrite lookup_delete_ne).
      rewrite map_insert_taken by eauto. by simpl.
Qed.

(** C5: [addLoopClosureId] and [addChildLoopClosureId] insert, and raise
    [neighborsModified], only for a non-zero id that has no edge yet; with
    the id 0 or an id that has an edge the node is left as it is, so a
    second call with the same id keeps the first transform. *)
Theorem addLoopClosureId_first_writer_wins s (id : Z) t :
  (id <> 0 -> _loopClosureIds s !! id = None ->
     addLoopClosureId id t s
     = set_neighborsModified true
         (set_loopClosureIds (<[id:=t]> (_loopClosureIds s)) s))
  /\ (id = 0 \/ is_Some (_loopClosureIds s !! id) ->
        addLoopClosureId id t s = s)
  /\ (forall t', addLoopClosureId id t' (addLoopClosureId id t s)
                 = addLoopClosureId id t s)
  /\ (id <> 0 -> _childLoopClosureIds s !! id = None ->
        addChildLoopClosureId id t s
        = set_neighborsModified true
            (set_childLoopClosureIds (<[id:=t]> (_childLoopClosureIds s)) s))
  /\ (id = 0 \/ is_Some (_childLoopClosureIds s !! id) ->
        addChildLoopClosureId id t s = s)
  /\ (forall t', addChildLoopClosureId id t' (addChildLoopClosureId id t s)
                 = addChildLoopClosureId id t s).
Proof.
  assert (Hlc : forall s0 t0, id = 0 \/ is_Some (_loopClosureIds s0 !! id) ->
                  addLoopClosureId id t0 s0 = s0).
  { intros s0 t0 H. unfold addLoopClosureId.
    destruct (Z.eqb_spec id 0) as [_|Hid]; [reflexivity|].
    destruct H as [H|H]; [contradiction|].
    rewrite map_insert_taken by assumption. apply set_loopClosureIds_same. }
  assert (Hch : forall s0 t0,
                  id = 0 \/ is_Some (_childLoopClosureIds s0 !! id) ->
                  addChildLoopClosureId id t0 s0 = s0).
  { intros s0 t0 H. unfold addChildLoopClosureId.
    destruct (Z.eqb_spec id 0) as [_|Hid]; [reflexivity|].
    destruct H as [H|H]; [contradiction|].
    rewrite map_insert_taken by assumption.
    apply set_childLoopClosureIds_same. }
  assert (Hlc1 : id <> 0 -> _loopClosureIds s !! id = None ->
                 addLoopClosureId id t s
                 = set_neighborsModified true
                     (set_loopClosureIds (<[id:=t]> (_loopClosureIds s)) s)).
  { intros Hid Hnone. unfold addLoopClosureId.
    destruct (Z.eqb_spec id 0) as [|_]; [contradiction|].
    by rewrite map_insert_fresh. }
  assert (Hch1 : id <> 0 -> _childLoopClosureIds s !! id = None ->
                 addChildLoopClosureId id t s
                 = set_neighborsModified true
                     (set_childLoopClosureIds
                        (<[id:=t]> (_childLoopClosureIds s)) s)).
  { intros Hid Hnone. unfold addChildLoopClosureId.
    destruct (Z.eqb_spec id 0) as [|_]; [contradiction|].
    by rewrite map_insert_fresh. }
  repeat split; try (by apply Hlc); try (by apply Hch); try assumption.
  - intros t'. apply Hlc.
    destruct (Z.eq_dec id 0) as [?|Hid]; [by left|right].
    destruct (_loopClosureIds s !! id) as [t0|] eqn:E.
    + rewrite Hlc by (right; eauto). rewrite E. eauto.
    + rewrite Hlc1 by done. simpl. rewrite lookup_insert_eq. eauto.
  - intros t'. apply Hch.
    destruct (Z.eq_dec id 0) as [?|Hid]; [by left|right].
    destruct (_childLoopClosureIds s !! id) as [t0|] eqn:E.
    + rewrite Hch by (right; eauto). rewrite E. eauto.
    + rewrite Hch1 by done. simpl. rewrite lookup_insert_eq. eauto.
Qed.

(** C9: [changeLoopClosureId] does to [loopClosureIds], and to the flag,
    what [changeNeighborIds] does to [neighbors]; the child loop closures
    and the neighbors are the ones before the call. *)
Theorem changeLoopClosureId_only_loopClosureIds s (idFrom idTo : Z) :
  let s' := changeLoopClosureId idFrom idTo s in
  let n' := changeNeighborIds idFrom idTo (set_neighbors (_loopClosureIds s) s) in
  _childLoopClosureIds s' = _childLoopClosureIds s
  /\ _neighbors s' = _neighbors s
  /\ _loopClosureIds s' = _neighbors n'
  /\ _neighborsModified s' = _neighborsModified n'.
Proof.
  simpl. unfold changeLoopClosureId, changeNeighborIds. simpl.
  destruct (_loopClosureIds s !! idFrom) as [t|]; simpl;
    repeat split; reflexivity.
Qed.

End EdgeFacts.

(** ** Words of the node *)

Section WordFacts.
Context {Transform KeyPoint PointXYZ : Type}.
Local Abbreviation node := (Signature Transform KeyPoint PointXYZ).
Implicit Types (s : node).

(** What [changeWordsRef] leaves in the three containers when the old
    identifier has entries. *)
Lemma changeWordsRef_hit s (a b : Z) :
  mm_count a (_words s) <> O ->
  let s' := changeWordsRef a b s in
  _words s' = mm_insert_all b (uValues (_words s) a) (mm_erase a (_words s))
  /\ _words3 s'
     = mm_insert_all b (uValues (_words3 s) a) (mm_erase a (_words3 s))
  /\ _wordsChanged s' = mm_insert a b (_wordsChanged s).
Proof.
  intros Hn. simpl. unfold changeWordsRef.
  rewrite length_uValues.
  destruct (Z.eqb_spec (Z.of_nat (mm_count a (_words s))) 0) as [H0|_]; [lia|].
  simpl. repeat split; reflexivity.
Qed.

Lemma changeWordsRef_miss s (a b : Z) :
  mm_count a (_words s) = O -> changeWordsRef a b s = s.
Proof.
  intros H0. unfold changeWordsRef. rewrite length_uValues, H0. reflexivity.
Qed.

(** C2: a node whose two feature maps hold the same number of entries
    under every identifier still does after [changeWordsRef], after
    [removeWord] and after [removeAllWords]. *)
Theorem words_in_step_preserved s (a b k : Z) :
  words_in_step s ->
  words_in_step (changeWordsRef a b s)
  /\ words_in_step (removeWord k s)
  /\ words_in_step (removeAllWords s).
Proof.
  intros Hs. split; [|split].
  - destruct (Nat.eq_dec (mm_count a (_words s)) O) as [H0|Hn].
    + by rewrite changeWordsRef_miss.
    + destruct (changeWordsRef_hit s a b Hn) as (Hw & Hw3 & _).
      intros i. rewrite Hw, Hw3.
      rewrite !mm_count_insert_all, !mm_count_erase, !length_uValues.
      rewrite (Hs i), (Hs a). reflexivity.
  - intros i. unfold removeWord. simpl.
    rewrite !mm_count_erase, (Hs i). reflexivity.
  - intros i. reflexivity.
Qed.

(** C3: for [a <> b], [changeWordsRef a b] leaves the node as it is when
    [words] has no entry under [a]; otherwise no entry stays under [a] in
    either map, [b] gains the entries [a] had, with their values, the other
    identifiers keep theirs, and the ledger holds one more entry, [(a, b)]. *)
Theorem changeWordsRef_moves_entries s (a b : Z) :
  a <> b ->
  let s' := changeWordsRef a b s in
  (mm_count a (_words s) = O -> s' = s)
  /\ (mm_count a (_words s) <> O ->
        mm_count a (_words s') = O
        /\ mm_count a (_words3 s') = O
        /\ mm_count b (_words s')
           = (mm_count b (_words s) + mm_count a (_words s))%nat
        /\ mm_count b (_words3 s')
           = (mm_count b (_words3 s) + mm_count a (_words3 s))%nat
        /\ Permutation (uValues (_words s') b)
             (uValues (_words s) b ++ uValues (_words s) a)
        /\ Permutation (uValues (_words3 s') b)
             (uValues (_words3 s) b ++ uValues (_words3 s) a)
        /\ (forall k, k <> a -> k <> b ->
              uValues (_words s') k = uValues (_words s) k
              /\ uValues (_words3 s') k = uValues (_words3 s) k)
        /\ Permutation (_wordsChanged s') ((a, b) :: _wordsChanged s)
        /\ length (_wordsChanged s') = S (length (_wordsChanged s))).
Proof.
  intros Hab. simpl. split; [apply changeWordsRef_miss|].
  intros Hn. destruct (changeWordsRef_hit s a b Hn) as (Hw & Hw3 & Hl).
  rewrite Hw, Hw3, Hl. clear Hw Hw3 Hl.
  assert (Hba : (b =? a) = false) by (apply Z.eqb_neq; congruence).
  assert (Hab' : (a =? b) = false) by (by apply Z.eqb_neq).
  rewrite !mm_count_insert_all, !mm_count_erase, !length_uValues.
  rewrite Hba, Hab', !Z.eqb_refl. simpl.
  repeat split; try lia.
  - rewrite (uValues_perm _ _ b (mm_insert_all_perm b _ _)).
    rewrite uValues_app, uValues_erase, uValues_tagged, Hab', Z.eqb_refl.
    reflexivity.
  - rewrite (uValues_perm _ _ b (mm_insert_all_perm b _ _)).
    rewrite uValues_app, uValues_erase, uValues_tagged, Hab', Z.eqb_refl.
    reflexivity.
  - rewrite uValues_insert_all_ne by congruence.
    rewrite uValues_erase. destruct (Z.eqb_spec a k); [congruence|reflexivity].
  - rewrite uValues_insert_all_ne by congruence.
    rewrite uValues_erase. destruct (Z.eqb_spec a k); [congruence|reflexivity].
  - apply mm_insert_perm.
  - by rewrite (Permutation_length (mm_insert_perm a b (_wordsChanged s))).
Qed.

(** The three containers stay in key order, and the entries moved under
    the new identifier come after the ones it had, in their order. *)
Lemma changeWordsRef_ordered s (a b : Z) :
  mm_ordered (_words s) -> mm_ordered (_words3 s) ->
  mm_ordered (_wordsChanged s) ->
  let s' := changeWordsRef a b s in
  mm_ordered (_words s') /\ mm_ordered (_words3 s')
  /\ mm_ordered (_wordsChanged s').
Proof.
  intros Hw Hw3 Hl. simpl.
  destruct (Nat.eq_dec (mm_count a (_words s)) O) as [H0|Hn].
  - by rewrite changeWordsRef_miss.
  - destruct (changeWordsRef_hit s a b Hn) as (-> & -> & ->).
    split; [|split].
    + by apply mm_insert_all_ordered, mm_erase_ordered.
    + by apply mm_insert_all_ordered, mm_erase_ordered.
    + by apply mm_insert_ordered.
Qed.

(** X15: on a node whose feature maps are in key order, the entries that
    [changeWordsRef a b] moves come after the entries [b] had, in the order
    they had under [a]. *)
Lemma changeWordsRef_values_in_order s (a b : Z) :
  a <> b -> mm_ordered (_words s) -> mm_ordered (_words3 s) ->
  mm_count a (_words s) <> O ->
  let s' := changeWordsRef a b s in
  uValues (_words s') b = uValues (_words s) b ++ uValues (_words s) a
  /\ uValues (_words3 s') b = uValues (_words3 s) b ++ uValues (_words3 s) a.
Proof.
  intros Hab Hw Hw3 Hn. simpl.
  destruct (changeWordsRef_hit s a b Hn) as (-> & -> & _).
  rewrite !uValues_insert_all_eq by (by apply mm_erase_ordered).
  rewrite !uValues_erase.
  destruct (Z.eqb_spec a b); [contradiction|]. by split.
Qed.

End WordFacts.

(** ** Depth of the node *)

Section DepthFacts.
Context {Transform KeyPoint PointXYZ : Type}.
Local Abbreviation node := (Signature Transform KeyPoint PointXYZ).
Implicit Types (s : node) (d : list byte) (fx fy cx cy : F32.float).

Lemma setDepth_accepts d fx fy cx cy s :
  depth_precondition d fx fy cx cy ->
  setDepth d fx fy cx cy s
  = Done (set_cy cy (set_cx cx (set_fy fy (set_fx fx (set_depth d s))))).
Proof.
  unfold setDepth. intros [->|(Hfx & Hfy & Hcx & Hcy)]; [reflexivity|].
  rewrite Hfx, Hfy, Hcx, Hcy. by destruct d.
Qed.

Lemma setDepth_rejects d fx fy cx cy s :
  ~ depth_precondition d fx fy cx cy -> setDepth d fx fy cx cy s = Fatal.
Proof.
  unfold setDepth, depth_precondition, valid_intrinsics. intros Hn.
  destruct d as [|x d]; [tauto|]. simpl.
  destruct (F32.gt fx F32.zero), (F32.gt fy F32.zero),
    (F32.ge cx F32.zero), (F32.ge cy F32.zero); simpl; try reflexivity.
  tauto.
Qed.

(** C4: [setDepth] stops on the assertion exactly when the depth buffer is
    not empty and the intrinsics do not satisfy [fx > 0], [fy > 0],
    [cx >= 0], [cy >= 0]; with an empty buffer every intrinsics are
    accepted; a call that returns has stored its five arguments. *)
Theorem setDepth_fatal_iff d fx fy cx cy s :
  (setDepth d fx fy cx cy s = Fatal
   <-> d <> [] /\ ~ valid_intrinsics fx fy cx cy)
  /\ (d = [] -> exists s', setDepth d fx fy cx cy s = Done s')
  /\ (forall s', setDepth d fx fy cx cy s = Done s' ->
        _depth s' = d /\ _fx s' = fx /\ _fy s' = fy
        /\ _cx s' = cx /\ _cy s' = cy).
Proof.
  split; [split|split].
  - intros Hf. split.
    + intros ->. by rewrite setDepth_accepts in Hf by (by left).
    + intros Hv. by rewrite setDepth_accepts in Hf by (by right).
  - intros [Hd Hv]. apply setDepth_rejects. intros [?|?]; contradiction.
  - intros ->. eexists. reflexivity.
  - intros s'. unfold setDepth. destruct (_ || _); [|discriminate].
    intros [= <-]. repeat split; reflexivity.
Qed.

(** C10: a call of [setDepth] within its precondition returns, and the
    node it leaves differs from the one before in the depth buffer and the
    four intrinsics only: flags, words, ledger, edges, identity, weight,
    poses and the other buffers are the ones before the call. *)
Theorem setDepth_frame d fx fy cx cy s :
  depth_precondition d fx fy cx cy ->
  exists s', setDepth d fx fy cx cy s = Done s'
    /\ _modified s' = _modified s /\ _saved s' = _saved s
    /\ _neighborsModified s' = _neighborsModified s
    /\ _words s' = _words s /\ _words3 s' = _words3 s
    /\ _wordsChanged s' = _wordsChanged s
    /\ _neighbors s' = _neighbors s
    /\ _loopClosureIds s' = _loopClosureIds s
    /\ _childLoopClosureIds s' = _childLoopClosureIds s
    /\ _id s' = _id s /\ _mapId s' = _mapId s /\ _weight s' = _weight s
    /\ _enabled s' = _enabled s
    /\ _image s' = _image s /\ _depth2D s' = _depth2D s
    /\ _pose s' = _pose s /\ _localTransform s' = _localTransform s.
Proof.
  intros Hpre. eexists. split; [by apply setDepth_accepts|].
  repeat split; reflexivity.
Qed.

End DepthFacts.

(** ** Similarity of two nodes *)

Section SimilarityFacts.
Context {Transform KeyPoint PointXYZ : Type}.
Local Abbreviation node := (Signature Transform KeyPoint PointXYZ).
Implicit Types (this other : node) (findPairs : pairer KeyPoint).

(** C6, as amended: [compareTo] is [0.0f] when one of the two nodes has no
    word; otherwise, for word counts of at most [INT_MAX] (the code keeps
    the larger count in an [int]), it is the number of pairs that the pairer
    returns for [(other.words, this.words)], divided as [float] by the larger
    of the two word counts. *)
Theorem compareTo_ratio findPairs this other :
  (_words this = [] \/ _words other = [] ->
     compareTo findPairs this other = F32.zero)
  /\ (_words this <> [] -> _words other <> [] ->
      mm_size (_words this) <= INT_MAX -> mm_size (_words other) <= INT_MAX ->
      compareTo findPairs this other
      = F32.div
          (F32.of_Z (Z.of_nat (length (findPairs (_words other) (_words this)))))
          (F32.of_Z (Z.max (mm_size (_words this)) (mm_size (_words other))))).
Proof.
  unfold compareTo. split.
  - intros [H|H]; rewrite H; simpl; [|reflexivity].
    by rewrite andb_false_r.
  - intros Ht Ho Hlt Hlo.
    destruct (mm_size (_words other) =? 0) eqn:Eo;
      [by apply mm_size_zero in Eo|].
    destruct (mm_size (_words this) =? 0) eqn:Et;
      [by apply mm_size_zero in Et|].
    simpl. f_equal. f_equal.
    assert (0 <= mm_size (_words this)) by (unfold mm_size; lia).
    assert (0 <= mm_size (_words other)) by (unfold mm_size; lia).
    destruct (Z.gtb_spec (mm_size (_words this)) (mm_size (_words other))).
    + rewrite Z.max_l by lia. apply int_of_size_small. lia.
    + rewrite Z.max_r by lia. apply int_of_size_small. lia.
Qed.

End SimilarityFacts.

(** ** The operations on concrete nodes *)

Example changeWordsRef_5_9 :
  isBadSignature node0 = false
  /\ _words (changeWordsRef 5 9 node0) = [(7, 70); (9, 50)]
  /\ _words3 (changeWordsRef 5 9 node0) = [(7, 71); (9, 51)]
  /\ _wordsChanged (changeWordsRef 5 9 node0) = [(5, 9)].
Proof. repeat split; reflexivity. Qed.

Example addNeighbor_then_removeNeighbor :
  let s := removeNeighbor 2 (addNeighbor 2 7 node0) in
  _neighbors s = ∅ /\ _neighborsModified s = true.
Proof. split; [by apply map_eq|reflexivity]. Qed.

Example compareTo_half :
  compareTo sample_pairer node0 node1 = S754_finite false 8388608 (-24).
Proof. reflexivity. Qed.

(** C1, the claim as written fails: the node has the edge [2 -> 20];
    after [addNeighbor 2 99] the transform stored under 2 is still 20, not
    99. *)
Lemma addNeighbor_does_not_overwrite :
  _neighbors node12 !! 2 = Some 20
  /\ _neighbors (addNeighbor 2 99 node12) !! 2 = Some 20
  /\ _neighbors (addNeighbor 2 99 node12) !! 2 <> Some 99.
Proof. repeat split; [reflexivity..|discriminate]. Qed.

Lemma addNeighbor_keeps_existing_witness :
  (_neighbors node12 !! 3 = None
   /\ _neighbors (addNeighbor 3 30 node12) = <[3:=30]> (_neighbors node12))
  /\ (_neighbors node12 !! 2 = Some 20
      /\ _neighbors (addNeighbor 2 99 node12) !! 2 = Some 20)
  /\ _neighborsModified (addNeighbor 2 99 node12) = true.
Proof.
  assert (H3 : _neighbors node12 !! 3 = None) by reflexivity.
  assert (H2 : _neighbors node12 !! 2 = Some 20) by reflexivity.
  split; [split; [exact H3|]|split; [split; [exact H2|]|]].
  - exact (proj1 (proj2 (addNeighbor_keeps_existing node12 3 30)) H3).
  - exact (proj2 (proj2 (proj2 (addNeighbor_keeps_existing node12 2 99)) 20 H2)).
  - exact (proj1 (addNeighbor_keeps_existing node12 2 99)).
Defined.

(** C7, the claim as written fails: the node has the edges [1 -> 10] and
    [2 -> 20]; after [changeNeighborIds 1 2] the transform stored under 2 is
    20, not the transform 10 of the edge that was moved. *)
Lemma changeNeighborIds_target_taken :
  _neighbors node12 !! 1 = Some 10
  /\ _neighbors (changeNeighborIds 1 2 node12) !! 2 = Some 20
  /\ _neighbors (changeNeighborIds 1 2 node12) !! 2 <> Some 10
  /\ _neighbors (changeNeighborIds 1 2 node12)
     <> <[2:=10]> (delete 1 (_neighbors node12)).
Proof.
  repeat split; [reflexivity..|discriminate|].
  intros H. apply (f_equal (fun m => m !! 2)) in H. discriminate H.
Qed.

Lemma changeNeighborIds_moves_unless_taken_witness :
  (_neighbors node12 !! 3 = None /\ changeNeighborIds 3 4 node12 = node12)
  /\ (_neighbors node12 !! 1 = Some 10 /\ _neighbors node12 !! 4 = None
      /\ _neighbors (changeNeighborIds 1 4 node12)
         = <[4:=10]> (delete 1 (_neighbors node12)))
  /\ (2 <> 1 /\ _neighbors node12 !! 2 = Some 20
      /\ _neighbors (changeNeighborIds 1 2 node12) !! 2 = Some 20)
  /\ _neighborsModified (changeNeighborIds 1 2 node12) = true.
Proof.
  assert (H3 : _neighbors node12 !! 3 = None) by reflexivity.
  assert (H1 : _neighbors node12 !! 1 = Some 10) by reflexivity.
  assert (H4 : _neighbors node12 !! 4 = None) by reflexivity.
  assert (H2 : _neighbors node12 !! 2 = Some 20) by reflexivity.
  assert (Hne : 2 <> 1) by lia.
  split; [split; [exact H3|]|split; [split; [exact H1|split; [exact H4|]]|
    split; [split; [exact Hne|split; [exact H2|]]|]]].
  - exact (proj1 (changeNeighborIds_moves_unless_taken node12 3 4) H3).
  - exact (proj1 (proj2 (proj2 (changeNeighborIds_moves_unless_taken node12 1 4)
                           10 H1)) (or_intror H4)).
  - exact (proj2 (proj2 (proj2 (proj2
             (changeNeighborIds_moves_unless_taken node12 1 2) 10 H1))
             20 Hne H2)).
  - exact (proj1 (proj2 (changeNeighborIds_moves_unless_taken node12 1 2) 10 H1)).
Defined.

Lemma addLoopClosureId_first_writer_wins_witness :
  (3 <> 0 /\ _loopClosureIds node12 !! 3 = None
   /\ addLoopClosureId 3 30 node12
      = set_neighborsModified true
          (set_loopClosureIds (<[3:=30]> (_loopClosureIds node12)) node12))
  /\ addLoopClosureId 0 30 node12 = node12
  /\ (is_Some (_loopClosureIds node12 !! 1)
      /\ addLoopClosureId 1 30 node12 = node12)
  /\ (3 <> 0 /\ _childLoopClosureIds node12 !! 3 = None
      /\ addChildLoopClosureId 3 30 node12
         = set_neighborsModified true
             (set_childLoopClosureIds
                (<[3:=30]> (_childLoopClosureIds node12)) node12))
  /\ addChildLoopClosureId 0 30 node12 = node12
  /\ (is_Some (_childLoopClosureIds node12 !! 1)
      /\ addChildLoopClosureId 1 30 node12 = node12).
Proof.
  assert (Hne : 3 <> 0) by lia.
  assert (H3 : _loopClosureIds node12 !! 3 = None) by reflexivity.
  assert (H1 : is_Some (_loopClosureIds node12 !! 1)) by (by exists 10).
  assert (C3 : _childLoopClosureIds node12 !! 3 = None) by reflexivity.
  assert (C1 : is_Some (_childLoopClosureIds node12 !! 1)) by (by exists 10).
  pose proof (addLoopClosureId_first_writer_wins node12 3 30)
    as (A3 & _ & _ & B3 & _).
  pose proof (addLoopClosureId_first_writer_wins node12 0 30)
    as (_ & A0 & _ & _ & B0 & _).
  pose proof (addLoopClosureId_first_writer_wins node12 1 30)
    as (_ & A1 & _ & _ & B1 & _).
  split; [split; [exact Hne|split; [exact H3|exact (A3 Hne H3)]]|].
  split; [exact (A0 (or_introl eq_refl))|].
  split; [split; [exact H1|exact (A1 (or_intror H1))]|].
  split; [split; [exact Hne|split; [exact C3|exact (B3 Hne C3)]]|].
  split; [exact (B0 (or_introl eq_refl))|].
  split; [exact C1|exact (B1 (or_intror C1))].
Defined.

Lemma words_in_step_preserved_witness :
  words_in_step node0
  /\ words_in_step (changeWordsRef 5 9 node0)
  /\ words_in_step (removeWord 7 node0)
  /\ words_in_step (removeAllWords node0).
Proof.
  assert (H : words_in_step node0) by (intros k; reflexivity).
  split; [exact H|]. exact (words_in_step_preserved node0 5 9 7 H).
Defined.

Lemma changeWordsRef_moves_entries_witness :
  (5 <> 9 /\ mm_count 5 (_words node0) <> O
   /\ mm_count 5 (_words (changeWordsRef 5 9 node0)) = O
   /\ mm_count 9 (_words (changeWordsRef 5 9 node0)) = 1%nat
   /\ length (_wordsChanged (changeWordsRef 5 9 node0)) = 1%nat)
  /\ (6 <> 9 /\ mm_count 6 (_words node0) = O
      /\ changeWordsRef 6 9 node0 = node0).
Proof.
  assert (H59 : 5 <> 9) by lia.
  assert (H69 : 6 <> 9) by lia.
  assert (H5 : mm_count 5 (_words node0) <> O) by (simpl; lia).
  assert (H6 : mm_count 6 (_words node0) = O) by reflexivity.
  pose proof (proj2 (changeWordsRef_moves_entries node0 5 9 H59) H5)
    as (Ha & _ & Hb & _ & _ & _ & _ & _ & Hl).
  split.
  - split; [exact H59|split; [exact H5|]].
    split; [exact Ha|split; [exact Hb|exact Hl]].
  - split; [exact H69|split; [exact H6|]].
    exact (proj1 (changeWordsRef_moves_entries node0 6 9 H69) H6).
Defined.

Lemma setDepth_fatal_iff_witness :
  (depth3 <> [] /\ ~ valid_intrinsics F32.zero F32.zero F32.zero F32.zero
   /\ setDepth depth3 F32.zero F32.zero F32.zero F32.zero node0 = Fatal)
  /\ (exists s', setDepth [] F32.zero F32.zero F32.zero F32.zero node0 = Done s')
  /\ (setDepth [] F32.zero F32.zero F32.zero F32.zero node0
        = Done (set_depth [] node0)
      /\ _depth (set_depth [] node0) = []
      /\ _fx (set_depth [] node0) = F32.zero).
Proof.
  assert (Hd : depth3 <> []) by discriminate.
  assert (Hv : ~ valid_intrinsics F32.zero F32.zero F32.zero F32.zero)
    by (intros [H _]; discriminate H).
  assert (Hr : setDepth [] F32.zero F32.zero F32.zero F32.zero node0
               = Done (set_depth [] node0)) by reflexivity.
  split; [split; [exact Hd|split; [exact Hv|]]|split; [|split; [exact Hr|]]].
  - exact (proj2 (proj1 (setDepth_fatal_iff depth3 F32.zero F32.zero F32.zero
                           F32.zero node0)) (conj Hd Hv)).
  - exact (proj1 (proj2 (setDepth_fatal_iff [] F32.zero F32.zero F32.zero
                           F32.zero node0)) eq_refl).
  - pose proof (proj2 (proj2 (setDepth_fatal_iff [] F32.zero F32.zero F32.zero
                                F32.zero node0)) _ Hr) as (H1 & H2 & _).
    split; [exact H1|exact H2].
Defined.

Lemma setDepth_frame_witness :
  depth_precondition depth3 (F32.of_Z 525) (F32.of_Z 525) (F32.of_Z 320)
    (F32.of_Z 240)
  /\ exists s',
       setDepth depth3 (F32.of_Z 525) (F32.of_Z 525) (F32.of_Z 320)
         (F32.of_Z 240) node12 = Done s'
       /\ _modified s' = true /\ _saved s' = false
       /\ _neighborsModified s' = false
       /\ _words s' = _words node12 /\ _neighbors s' = _neighbors node12.
Proof.
  assert (Hp : depth_precondition depth3 (F32.of_Z 525) (F32.of_Z 525)
                 (F32.of_Z 320) (F32.of_Z 240))
    by (right; repeat split; reflexivity).
  split; [exact Hp|].
  destruct (setDepth_frame depth3 (F32.of_Z 525) (F32.of_Z 525) (F32.of_Z 320)
              (F32.of_Z 240) node12 Hp)
    as (s' & Hs & Hm & Hsv & Hn & Hw & _ & _ & Hnb & _).
  exists s'. split; [exact Hs|].
  split; [exact Hm|]. split; [exact Hsv|]. split; [exact Hn|].
  split; [exact Hw|exact Hnb].
Defined.

Lemma compareTo_ratio_witness :
  (_words node_empty = []
   /\ compareTo sample_pairer node0 node_empty = F32.zero
   /\ compareTo sample_pairer node_empty node0 = F32.zero)
  /\ (_words node0 <> [] /\ _words node1 <> []
      /\ mm_size (_words node0) <= INT_MAX /\ mm_size (_words node1) <= INT_MAX
      /\ compareTo sample_pairer node0 node1
         = F32.div (F32.of_Z 1) (F32.of_Z 2)).
Proof.
  assert (He : _words node_empty = []) by reflexivity.
  assert (H0 : _words node0 <> []) by discriminate.
  assert (H1 : _words node1 <> []) by discriminate.
  assert (L0 : mm_size (_words node0) <= INT_MAX) by (vm_compute; discriminate).
  assert (L1 : mm_size (_words node1) <= INT_MAX) by (vm_compute; discriminate).
  split.
  - split; [exact He|split].
    + exact (proj1 (compareTo_ratio sample_pairer node0 node_empty)
               (or_intror He)).
    + exact (proj1 (compareTo_ratio sample_pairer node_empty node0)
               (or_introl He)).
  - split; [exact H0|split; [exact H1|split; [exact L0|split; [exact L1|]]]].
    exact (proj2 (compareTo_ratio sample_pairer node0 node1) H0 H1 L0 L1).
Defined.

(** ** More on the edges: what the mutators keep *)

Section EdgeFrame.
Context {Transform KeyPoint PointXYZ : Type}.
Local Abbreviation node := (Signature Transform KeyPoint PointXYZ).
Implicit Types (s : node) (t : Transform) (m : gmap Z Transform).

Local Ltac frame_crush :=
  unfold same_payload, same_words, same_edges; simpl;
  repeat split; try reflexivity; try assumption;
  try (by destruct (_neighborsModified _)).

Lemma same_payload_trans s1 s2 s3 :
  same_payload s1 s2 -> same_payload s2 s3 -> same_payload s1 s3.
Proof.
  unfold same_payload. intros H12 H23.
  destruct H12 as (?&?&?&?&?&?&?&?&?&?&?&?&?&?&?).
  destruct H23 as (?&?&?&?&?&?&?&?&?&?&?&?&?&?&?).
  repeat split; congruence.
Qed.

Lemma same_words_trans s1 s2 s3 :
  same_words s1 s2 -> same_words s2 s3 -> same_words s1 s3.
Proof.
  unfold same_words. intros (?&?&?) (?&?&?). repeat split; congruence.
Qed.

(** What one [addNeighbor] leaves alone. *)
Lemma addNeighbor_keeps s (k : Z) t :
  let s' := addNeighbor k t s in
  same_payload s s' /\ same_words s s'
  /\ _loopClosureIds s' = _loopClosureIds s
  /\ _childLoopClosureIds s' = _childLoopClosureIds s.
Proof. frame_crush. Qed.

(** The loop of [addNeighbors], entry after entry. *)
Lemma addNeighbors_loop (l : list (Z * Transform)) s :
  let s' := foldl (fun s0 i => addNeighbor i.1 i.2 s0) s l in
  _neighbors s' = _neighbors s ∪ list_to_map l
  /\ _neighborsModified s'
     = match l with [] => _neighborsModified s | _ :: _ => true end
  /\ same_payload s s' /\ same_words s s'
  /\ _loopClosureIds s' = _loopClosureIds s
  /\ _childLoopClosureIds s' = _childLoopClosureIds s.
Proof.
  revert s. induction l as [|[k t] l IH]; intros s; simpl.
  - rewrite (right_id_L ∅ (∪)). frame_crush.
  - destruct (IH (addNeighbor k t s)) as (Hn & Hf & Hp & Hw & Hl & Hc).
    destruct (addNeighbor_keeps s k t) as (Hp0 & Hw0 & Hl0 & Hc0).
    split; [|split; [|split; [|split; [|split]]]].
    + rewrite Hn. unfold addNeighbor, map_insert; simpl.
      destruct (_neighbors s !! k) as [t0|] eqn:E; simpl.
      * apply map_eq. intros i. rewrite !lookup_union.
        destruct (decide (i = k)) as [->|Hne].
        -- rewrite E, lookup_insert_eq. by destruct (list_to_map l !! k).
        -- by rewrite lookup_insert_ne by congruence.
      * apply map_eq. intros i. rewrite !lookup_union.
        destruct (decide (i = k)) as [->|Hne].
        -- rewrite !lookup_insert_eq, E. by destruct (list_to_map l !! k).
        -- by rewrite !lookup_insert_ne by congruence.
    + rewrite Hf. by destruct l.
    + exact (same_payload_trans _ _ _ Hp0 Hp).
    + exact (same_words_trans _ _ _ Hw0 Hw).
    + congruence.
    + congruence.
Qed.

Lemma list_to_map_entries m : list_to_map (map_entries m) = m.
Proof.
  assert (Hp : map_entries m ≡ₚ map_to_list m)
    by apply merge_sort_Permutation.
  rewrite <- (list_to_map_to_list m) at 2.
  apply list_to_map_proper; [|exact Hp].
  rewrite Hp. apply NoDup_fst_map_to_list.
Qed.

Lemma map_entries_nil m : map_entries m = [] <-> m = ∅.
Proof.
  assert (Hp : map_entries m ≡ₚ map_to_list m)
    by apply merge_sort_Permutation.
  rewrite <- map_to_list_empty_iff. split; intros H.
  - rewrite H in Hp. by apply Permutation_nil.
  - rewrite H in Hp. symmetry in Hp. by apply Permutation_nil in Hp.
Qed.

(** X1: [addNeighbors] adds the edges of its argument that the node does
    not have yet and keeps the transform of every edge it has; the flag is
    raised unless the argument is empty; words, loop closures and payload
    are left alone. *)
Theorem addNeighbors_union s m :
  let s' := addNeighbors m s in
  _neighbors s' = _neighbors s ∪ m
  /\ _neighborsModified s'
     = negb (bool_decide (m = ∅)) || _neighborsModified s
  /\ same_payload s s' /\ same_words s s'
  /\ _loopClosureIds s' = _loopClosureIds s
  /\ _childLoopClosureIds s' = _childLoopClosureIds s.
Proof.
  simpl. unfold addNeighbors.
  destruct (addNeighbors_loop (map_entries m) s) as (Hn & Hf & Hrest).
  rewrite list_to_map_entries in Hn.
  split; [exact Hn|]. split; [|exact Hrest].
  rewrite Hf. destruct (map_entries m) as [|e l] eqn:E.
  - apply map_entries_nil in E. by rewrite bool_decide_eq_true_2.
  - rewrite bool_decide_eq_false_2; [reflexivity|].
    intros Hm. apply map_entries_nil in Hm. congruence.
Qed.

(** X2: [removeNeighbors] empties the neighbor map, raises the flag exactly
    when there was an edge, leaves everything else alone, and a second call
    changes nothing. *)
Theorem removeNeighbors_clears s :
  let s' := removeNeighbors s in
  _neighbors s' = ∅
  /\ _neighborsModified s'
     = negb (bool_decide (_neighbors s = ∅)) || _neighborsModified s
  /\ removeNeighbors s' = s'
  /\ same_payload s s' /\ same_words s s'
  /\ _loopClosureIds s' = _loopClosureIds s
  /\ _childLoopClosureIds s' = _childLoopClosureIds s.
Proof.
  simpl. unfold removeNeighbors.
  destruct (decide (_neighbors s = ∅)) as [He|Hne].
  - rewrite He, map_size_empty, bool_decide_eq_true_2 by reflexivity.
    simpl. rewrite map_size_empty. frame_crush.
  - rewrite bool_decide_eq_false_2 by assumption.
    apply map_size_non_empty_iff in Hne.
    destruct (Z.eqb_spec (Z.of_nat (size (_neighbors s))) 0) as [H0|_]; [lia|].
    simpl. rewrite map_size_empty. frame_crush.
Qed.

(** X3: adding an edge the node does not have and removing it again gives
    back the neighbor map, with the flag raised. *)
Theorem addNeighbor_removeNeighbor s (k : Z) t :
  _neighbors s !! k = None ->
  let s' := removeNeighbor k (addNeighbor k t s) in
  _neighbors s' = _neighbors s /\ _neighborsModified s' = true.
Proof.
  intros Hk. simpl.
  unfold removeNeighbor, addNeighbor, map_erase, map_insert. rewrite Hk.
  simpl. rewrite lookup_insert_eq. simpl.
  split; [|reflexivity]. rewrite delete_insert_eq. by apply delete_id.
Qed.

(** X4: a second [addNeighbor] with the same id, whatever its transform,
    leaves the node as the first one left it. *)
Theorem addNeighbor_twice s (k : Z) t t' :
  addNeighbor k t' (addNeighbor k t s) = addNeighbor k t s.
Proof.
  unfold addNeighbor, map_insert.
  destruct (_neighbors s !! k) as [t0|] eqn:E; simpl.
  - rewrite E. reflexivity.
  - rewrite lookup_insert_eq. reflexivity.
Qed.

(** X5: the three single-edge adders and [addNeighbors] never remove an
    edge nor change the transform of one: every edge of the map they work
    on is there afterwards with the transform it had. *)
Theorem adders_keep_edges s (k k0 : Z) t t0 m :
  (_neighbors s !! k0 = Some t0 ->
     _neighbors (addNeighbor k t s) !! k0 = Some t0
     /\ _neighbors (addNeighbors m s) !! k0 = Some t0)
  /\ (_loopClosureIds s !! k0 = Some t0 ->
        _loopClosureIds (addLoopClosureId k t s) !! k0 = Some t0)
  /\ (_childLoopClosureIds s !! k0 = Some t0 ->
        _childLoopClosureIds (addChildLoopClosureId k t s) !! k0 = Some t0).
Proof.
  split; [|split].
  - intros H0. split.
    + unfold addNeighbor, map_insert.
      destruct (_neighbors s !! k) eqn:E; simpl; [assumption|].
      rewrite lookup_insert_ne; [assumption|congruence].
    + destruct (addNeighbors_union s m) as (-> & _).
      by apply lookup_union_Some_l.
  - intros H0. unfold addLoopClosureId, map_insert.
    destruct (k =? 0); [assumption|].
    destruct (_loopClosureIds s !! k) eqn:E; simpl; [assumption|].
    rewrite lookup_insert_ne; [assumption|congruence].
  - intros H0. unfold addChildLoopClosureId, map_insert.
    destruct (k =? 0); [assumption|].
    destruct (_childLoopClosureIds s !! k) eqn:E; simpl; [assumption|].
    rewrite lookup_insert_ne; [assumption|congruence].
Qed.

(** X6: [changeNeighborIds a a] keeps the neighbor map as it is, and still
    raises the flag when the node has an edge to [a]. *)
Theorem changeNeighborIds_same_id s (a : Z) :
  let s' := changeNeighborIds a a s in
  _neighbors s' = _neighbors s
  /\ _neighborsModified s'
     = bool_decide (is_Some (_neighbors s !! a)) || _neighborsModified s.
Proof.
  simpl. unfold changeNeighborIds, map_insert.
  destruct (_neighbors s !! a) as [t|] eqn:E; simpl.
  - rewrite lookup_delete_eq. simpl.
    split; [|reflexivity]. rewrite insert_delete_eq. by apply insert_id.
  - split; reflexivity.
Qed.

(** X7: moving an edge to an id without edge and back again gives back the
    neighbor map. *)
Theorem changeNeighborIds_back s (a b : Z) t :
  _neighbors s !! a = Some t -> _neighbors s !! b = None ->
  _neighbors (changeNeighborIds b a (changeNeighborIds a b s)) = _neighbors s.
Proof.
  intros Ha Hb.
  assert (Hab : a <> b) by congruence.
  unfold changeNeighborIds at 2. rewrite Ha. unfold map_insert. simpl.
  rewrite lookup_delete_ne, Hb by assumption. simpl.
  unfold changeNeighborIds. simpl. rewrite lookup_insert_eq. simpl.
  unfold map_insert. rewrite delete_insert_eq.
  rewrite (delete_id (delete a (_neighbors s)) b)
    by (by rewrite lookup_delete_ne).
  rewrite lookup_delete_eq. simpl. rewrite insert_delete_eq.
  by apply insert_id.
Qed.

(** X8: [changeNeighborIds] never adds to the number of edges, and loses
    one exactly when it moves an edge onto another id that has an edge. *)
Theorem changeNeighborIds_size s (a b : Z) :
  size (_neighbors (changeNeighborIds a b s))
  = if bool_decide (is_Some (_neighbors s !! a) /\ b <> a
                    /\ is_Some (_neighbors s !! b))
    then Nat.pred (size (_neighbors s)) else size (_neighbors s).
Proof.
  unfold changeNeighborIds, map_insert.
  destruct (_neighbors s !! a) as [t|] eqn:Ea; simpl.
  - destruct (decide (b = a)) as [->|Hne].
    + rewrite lookup_delete_eq. simpl.
      rewrite bool_decide_eq_false_2 by tauto.
      rewrite insert_delete_eq, insert_id; done.
    + rewrite lookup_delete_ne by congruence.
      destruct (_neighbors s !! b) as [t'|] eqn:Eb; simpl.
      * rewrite bool_decide_eq_true_2 by eauto.
        rewrite map_size_delete_Some by eauto. reflexivity.
      * rewrite bool_decide_eq_false_2 by (intros (_&_&[? ?]); congruence).
        rewrite map_size_insert_None by (by rewrite lookup_delete_ne).
        rewrite map_size_delete_Some by eauto.
        assert (size (_neighbors s) <> O) as Hs
          by (apply (map_size_ne_0_lookup_2 _ a); eauto).
        destruct (size (_neighbors s)); [contradiction|reflexivity].
  - reflexivity.
Qed.

(** X9: the five neighbor mutators leave identity, payload, the flags
    [saved] and [modified], the words, the ledger and both loop-closure
    maps alone, and none of them lowers [neighborsModified]. *)
Theorem neighbor_mutators_frame s (k k' : Z) t m :
  Forall (fun s' =>
            same_payload s s' /\ same_words s s'
            /\ _loopClosureIds s' = _loopClosureIds s
            /\ _childLoopClosureIds s' = _childLoopClosureIds s
            /\ implb (_neighborsModified s) (_neighborsModified s') = true)
    [addNeighbor k t s; addNeighbors m s; removeNeighbor k s;
     removeNeighbors s; changeNeighborIds k k' s].
Proof.
  repeat apply List.Forall_cons; [..|apply List.Forall_nil].
  - frame_crush.
  - destruct (addNeighbors_union s m) as (_ & Hf & Hp & Hw & Hl & Hc).
    split; [exact Hp|split; [exact Hw|split; [exact Hl|split; [exact Hc|]]]].
    rewrite Hf. destruct (_neighborsModified s); [|reflexivity].
    by rewrite orb_true_r.
  - unfold removeNeighbor, map_erase.
    destruct (_neighbors s !! k); frame_crush.
  - destruct (removeNeighbors_clears s) as (_ & Hf & _ & Hp & Hw & Hl & Hc).
    split; [exact Hp|split; [exact Hw|split; [exact Hl|split; [exact Hc|]]]].
    rewrite Hf. destruct (_neighborsModified s); [|reflexivity].
    by rewrite orb_true_r.
  - unfold changeNeighborIds.
    destruct (_neighbors s !! k); frame_crush.
Qed.

(** X10: the three loop-closure mutators leave identity, payload, the flags
    [saved] and [modified], the words, the ledger and the neighbor map
    alone, and none of them lowers [neighborsModified]; [addLoopClosureId]
    leaves the child loop closures alone and [addChildLoopClosureId] the
    loop closures. *)
Theorem loop_closure_mutators_frame s (k k' : Z) t :
  Forall (fun s' =>
            same_payload s s' /\ same_words s s'
            /\ _neighbors s' = _neighbors s
            /\ implb (_neighborsModified s) (_neighborsModified s') = true)
    [addLoopClosureId k t s; addChildLoopClosureId k t s;
     changeLoopClosureId k k' s]
  /\ _childLoopClosureIds (addLoopClosureId k t s) = _childLoopClosureIds s
  /\ _loopClosureIds (addChildLoopClosureId k t s) = _loopClosureIds s.
Proof.
  split; [repeat apply List.Forall_cons; [..|apply List.Forall_nil]|split].
  - unfold addLoopClosureId, map_insert. destruct (k =? 0); [frame_crush|].
    destruct (_loopClosureIds s !! k); frame_crush.
  - unfold addChildLoopClosureId, map_insert.
    destruct (k =? 0); [frame_crush|].
    destruct (_childLoopClosureIds s !! k); frame_crush.
  - unfold changeLoopClosureId.
    destruct (_loopClosureIds s !! k); frame_crush.
  - unfold addLoopClosureId, map_insert. destruct (k =? 0); [reflexivity|].
    by destruct (_loopClosureIds s !! k).
  - unfold addChildLoopClosureId, map_insert.
    destruct (k =? 0); [reflexivity|].
    by destruct (_childLoopClosureIds s !! k).
Qed.

(** X11: in a node without loop closure to the id 0, [addLoopClosureId]
    creates none (and [addChildLoopClosureId] none among the child loop
    closures); [changeLoopClosureId] creates none for a target other than
    0, and for the target 0 it stores the moved transform under 0. *)
Theorem loop_closure_zero_key s (k k' : Z) t :
  (_loopClosureIds s !! 0 = None ->
     _loopClosureIds (addLoopClosureId k t s) !! 0 = None
     /\ (k' <> 0 -> _loopClosureIds (changeLoopClosureId k k' s) !! 0 = None)
     /\ (forall t0, _loopClosureIds s !! k = Some t0 ->
           _loopClosureIds (changeLoopClosureId k 0 s) !! 0 = Some t0))
  /\ (_childLoopClosureIds s !! 0 = None ->
        _childLoopClosureIds (addChildLoopClosureId k t s) !! 0 = None).
Proof.
  split.
  - intros H0. split; [|split].
    + unfold addLoopClosureId, map_insert.
      destruct (Z.eqb_spec k 0) as [->|Hk]; [assumption|].
      destruct (_loopClosureIds s !! k); simpl; [assumption|].
      by rewrite lookup_insert_ne.
    + intros Hk'. unfold changeLoopClosureId, map_insert.
      destruct (_loopClosureIds s !! k) as [t0|] eqn:E; simpl; [|assumption].
      assert (delete k (_loopClosureIds s) !! 0 = None) as Hd.
      { rewrite lookup_delete. by case_decide. }
      destruct (delete k (_loopClosureIds s) !! k'); simpl; [assumption|].
      by rewrite lookup_insert_ne.
    + intros t0 E. unfold changeLoopClosureId, map_insert. rewrite E. simpl.
      assert (delete k (_loopClosureIds s) !! 0 = None) as Hd.
      { rewrite lookup_delete. by case_decide. }
      rewrite Hd. simpl. apply lookup_insert_eq.
  - intros H0. unfold addChildLoopClosureId, map_insert.
    destruct (Z.eqb_spec k 0) as [->|Hk]; [assumption|].
    destruct (_childLoopClosureIds s !! k); simpl; [assumption|].
    by rewrite lookup_insert_ne.
Qed.

End EdgeFrame.

(** ** More on multimaps: sizes, erasing twice, putting entries back *)

Section MultiMapMore.
Context {V : Type}.
Implicit Types (m : multimap V) (k a b : Z) (v : V).

Lemma length_mm_erase a m :
  (length (mm_erase a m) + mm_count a m)%nat = length m.
Proof.
  induction m as [|[k0 v0] m IH]; simpl; [reflexivity|].
  destruct (k0 =? a); simpl; lia.
Qed.

Lemma length_mm_insert_all k (vs : list V) m :
  length (mm_insert_all k vs m) = (length m + length vs)%nat.
Proof.
  rewrite (Permutation_length (mm_insert_all_perm k vs m)).
  by rewrite length_app, length_map.
Qed.

Lemma mm_erase_absent k m : mm_count k m = O -> mm_erase k m = m.
Proof.
  induction m as [|[k0 v0] m IH]; simpl; [reflexivity|].
  destruct (k0 =? k); [discriminate|]. intros H. by rewrite IH.
Qed.

Lemma mm_erase_comm k k' m :
  mm_erase k (mm_erase k' m) = mm_erase k' (mm_erase k m).
Proof.
  induction m as [|[k0 v0] m IH]; simpl; [reflexivity|].
  destruct (k0 =? k') eqn:E', (k0 =? k) eqn:E; simpl;
    rewrite ?E, ?E'; congruence.
Qed.

Lemma uValues_absent k m : mm_count k m = O -> uValues m k = [].
Proof.
  intros H. apply length_zero_iff_nil. by rewrite length_uValues.
Qed.

(** The values under [k] once the entries under [a] have been collected,
    erased and inserted again under [b]. *)
Lemma uValues_moved m a b k :
  uValues (mm_insert_all b (uValues m a) (mm_erase a m)) k
  ≡ₚ (if a =? k then [] else uValues m k)
     ++ (if b =? k then uValues m a else []).
Proof.
  rewrite (uValues_perm _ _ k (mm_insert_all_perm b _ _)).
  by rewrite uValues_app, uValues_erase, uValues_tagged.
Qed.

Lemma uValues_moved_back m a b k :
  a <> b -> mm_count b m = O ->
  uValues
    (mm_insert_all a
       (uValues (mm_insert_all b (uValues m a) (mm_erase a m)) b)
       (mm_erase b (mm_insert_all b (uValues m a) (mm_erase a m)))) k
  ≡ₚ uValues m k.
Proof.
  intros Hab Hb.
  rewrite uValues_moved.
  assert (Hvb : uValues (mm_insert_all b (uValues m a) (mm_erase a m)) b
                ≡ₚ uValues m a).
  { rewrite uValues_moved, Z.eqb_refl.
    destruct (Z.eqb_spec a b); [contradiction|].
    by rewrite (uValues_absent b m Hb). }
  destruct (Z.eqb_spec b k) as [<-|Hbk].
  - destruct (Z.eqb_spec a b); [contradiction|].
    by rewrite (uValues_absent b m Hb).
  - destruct (Z.eqb_spec a k) as [<-|Hak].
    + rewrite Hvb, uValues_moved, Z.eqb_refl.
      destruct (Z.eqb_spec b a); [congruence|]. by rewrite app_nil_r.
    + rewrite uValues_moved.
      destruct (Z.eqb_spec a k); [contradiction|].
      destruct (Z.eqb_spec b k); [contradiction|]. by rewrite !app_nil_r.
Qed.

(** In an ordered multimap, a new entry goes in front of entries with
    greater keys and behind an entry whose key is not greater. *)
Lemma mm_insert_front k v m :
  Forall (fun e => k < e.1) m -> mm_insert k v m = (k, v) :: m.
Proof.
  destruct m as [|[k0 v0] m]; simpl; [reflexivity|].
  intros [H%Z.ltb_lt _]%Forall_cons. simpl in H. by rewrite H.
Qed.

Lemma mm_insert_all_skip k (vs : list V) k0 v0 m :
  k0 <= k ->
  mm_insert_all k vs ((k0, v0) :: m) = (k0, v0) :: mm_insert_all k vs m.
Proof.
  intros Hle. revert m. induction vs as [|v vs IH]; intros m; simpl.
  - reflexivity.
  - destruct (Z.ltb_spec k k0); [lia|]. apply IH.
Qed.

Lemma mm_erase_above a m :
  Forall (fun e => a <= e.1) m -> Forall (fun e => a < e.1) (mm_erase a m).
Proof.
  induction m as [|[k0 v0] m IH]; simpl; [constructor|].
  intros [H Hm]%Forall_cons. simpl in H.
  destruct (Z.eqb_spec k0 a); [by apply IH|].
  constructor; [simpl; lia|by apply IH].
Qed.

Lemma mm_count_above a m :
  Forall (fun e => a < e.1) m -> mm_count a m = O.
Proof.
  induction m as [|[k0 v0] m IH]; simpl; [reflexivity|].
  intros [H Hm]%Forall_cons. simpl in H.
  destruct (Z.eqb_spec k0 a); [lia|by apply IH].
Qed.

Lemma mm_ordered_inv k0 v0 m :
  mm_ordered ((k0, v0) :: m) ->
  mm_ordered m /\ Forall (fun e => k0 <= e.1) m.
Proof.
  unfold mm_ordered. simpl. intros Hs.
  apply Sorted_StronglySorted in Hs; [|intros x y z; lia].
  apply StronglySorted_inv in Hs as [Hs Hall].
  split; [by apply StronglySorted_Sorted|].
  exact (proj1 (List.Forall_map fst (Z.le k0) m) Hall).
Qed.

(** Collecting the entries of an identifier, erasing them and inserting
    them again under the same identifier gives back the multimap. *)
Lemma mm_reinsert a m :
  mm_ordered m -> mm_insert_all a (uValues m a) (mm_erase a m) = m.
Proof.
  induction m as [|[k0 v0] m IH]; simpl; [reflexivity|].
  intros [Hm Hall]%mm_ordered_inv.
  destruct (Z.eqb_spec k0 a) as [->|Hne]; simpl.
  - rewrite mm_insert_front by (by apply mm_erase_above).
    rewrite mm_insert_all_skip by lia. by rewrite IH.
  - destruct (Z.lt_ge_cases a k0) as [Hlt|Hge].
    + assert (Habove : Forall (fun e => a < e.1) ((k0, v0) :: m)).
      { constructor; [assumption|].
        eapply Forall_impl; [exact Hall|]. simpl. intros; lia. }
      assert (mm_count a m = O) as H0
        by (apply mm_count_above; by apply Forall_cons in Habove as [_ ?]).
      rewrite (uValues_absent a m H0). simpl.
      by rewrite (mm_erase_absent a m H0).
    + rewrite mm_insert_all_skip by lia. by rewrite IH.
Qed.

End MultiMapMore.

(** ** More on the words *)

Section WordExtras.
Context {Transform KeyPoint PointXYZ : Type}.
Local Abbreviation node := (Signature Transform KeyPoint PointXYZ).
Implicit Types (s : node).

Local Ltac frame_crush :=
  unfold same_payload, same_words, same_edges; simpl;
  repeat split; try reflexivity; try assumption.

(** X12: the three word mutators leave identity, payload, every flag
    ([saved], [modified], [neighborsModified]) and the three edge maps alone;
    [removeWord] and [removeAllWords] leave the ledger alone as well. *)
Theorem word_mutators_frame s (a b k : Z) :
  Forall (fun s' => same_payload s s' /\ same_edges s s')
    [changeWordsRef a b s; removeWord k s; removeAllWords s]
  /\ _wordsChanged (removeWord k s) = _wordsChanged s
  /\ _wordsChanged (removeAllWords s) = _wordsChanged s.
Proof.
  split; [repeat apply List.Forall_cons; [..|apply List.Forall_nil]|split].
  - unfold changeWordsRef.
    destruct (negb (Z.of_nat (length (uValues (_words s) a)) =? 0));
      frame_crush.
  - frame_crush.
  - frame_crush.
  - reflexivity.
  - reflexivity.
Qed.

(** X13: [changeWordsRef] keeps the number of entries of both feature maps,
    whatever the two identifiers are, so a node is bad after it exactly when
    it was before. *)
Theorem changeWordsRef_size s (a b : Z) :
  let s' := changeWordsRef a b s in
  mm_size (_words s') = mm_size (_words s)
  /\ mm_size (_words3 s') = mm_size (_words3 s)
  /\ isBadSignature s' = isBadSignature s.
Proof.
  simpl.
  assert (H : mm_size (_words (changeWordsRef a b s)) = mm_size (_words s)
              /\ mm_size (_words3 (changeWordsRef a b s))
                 = mm_size (_words3 s)).
  { destruct (Nat.eq_dec (mm_count a (_words s)) O) as [H0|Hn].
    - by rewrite changeWordsRef_miss.
    - destruct (changeWordsRef_hit s a b Hn) as (-> & -> & _).
      unfold mm_size. rewrite !length_mm_insert_all, !length_uValues.
      by rewrite !length_mm_erase. }
  destruct H as [Hw Hw3]. unfold isBadSignature. by rewrite Hw.
Qed.

(** X14: [changeWordsRef a a] on a node whose feature maps are in key
    order gives back both maps as they were; it still records [(a, a)] in
    the ledger when [a] has entries. *)
Theorem changeWordsRef_same_id s (a : Z) :
  mm_ordered (_words s) -> mm_ordered (_words3 s) ->
  let s' := changeWordsRef a a s in
  _words s' = _words s /\ _words3 s' = _words3 s
  /\ (mm_count a (_words s) <> O ->
        _wordsChanged s' = mm_insert a a (_wordsChanged s))
  /\ (mm_count a (_words s) = O -> s' = s).
Proof.
  intros Hw Hw3. simpl.
  destruct (Nat.eq_dec (mm_count a (_words s)) O) as [H0|Hn].
  - rewrite changeWordsRef_miss by assumption.
    repeat split; try reflexivity. intros; contradiction.
  - destruct (changeWordsRef_hit s a a Hn) as (-> & -> & ->).
    rewrite !mm_reinsert by assumption.
    repeat split; try reflexivity. intros; contradiction.
Qed.

(** X16: moving the entries of [a] to an identifier [b] without entries and
    back again restores, under every identifier, the values of both feature
    maps; the ledger has the two entries [(a, b)] and [(b, a)] more. *)
Theorem changeWordsRef_back s (a b : Z) :
  a <> b -> mm_count a (_words s) <> O ->
  mm_count b (_words s) = O -> mm_count b (_words3 s) = O ->
  let s' := changeWordsRef b a (changeWordsRef a b s) in
  (forall k, uValues (_words s') k ≡ₚ uValues (_words s) k
             /\ uValues (_words3 s') k ≡ₚ uValues (_words3 s) k)
  /\ _wordsChanged s' ≡ₚ (b, a) :: (a, b) :: _wordsChanged s.
Proof.
  intros Hab Ha Hb Hb3. simpl.
  destruct (changeWordsRef_hit s a b Ha) as (Hw1 & Hw31 & Hl1).
  assert (Hb1 : mm_count b (_words (changeWordsRef a b s)) <> O).
  { rewrite Hw1, mm_count_insert_all, Z.eqb_refl, length_uValues. lia. }
  destruct (changeWordsRef_hit _ b a Hb1) as (-> & -> & ->).
  rewrite Hw1, Hw31, Hl1. split.
  - intros k. split; by apply uValues_moved_back.
  - rewrite mm_insert_perm. constructor. apply mm_insert_perm.
Qed.

(** X17: [removeWord k] leaves no entry under [k] in either map and the
    values of the other identifiers as they were; the number of words drops
    by the number of entries [k] had; a second call changes nothing. *)
Theorem removeWord_erases s (k : Z) :
  let s' := removeWord k s in
  mm_count k (_words s') = O /\ mm_count k (_words3 s') = O
  /\ (forall k', k' <> k ->
        uValues (_words s') k' = uValues (_words s) k'
        /\ uValues (_words3 s') k' = uValues (_words3 s) k')
  /\ mm_size (_words s') = mm_size (_words s) - Z.of_nat (mm_count k (_words s))
  /\ removeWord k s' = s'.
Proof.
  simpl. unfold removeWord; simpl.
  rewrite !mm_count_erase, !Z.eqb_refl.
  split; [reflexivity|]. split; [reflexivity|]. split; [|split].
  - intros k' Hne. rewrite !uValues_erase.
    destruct (Z.eqb_spec k k'); [congruence|]. by split.
  - unfold mm_size. pose proof (length_mm_erase k (_words s)). lia.
  - rewrite !(mm_erase_absent k (mm_erase k _))
      by (by rewrite mm_count_erase, Z.eqb_refl).
    reflexivity.
Qed.

(** X18: [removeWord] of an identifier without entry in either map leaves
    the node as it is, and two [removeWord] give the same node in either
    order. *)
Theorem removeWord_absent_comm s (k k' : Z) :
  (mm_count k (_words s) = O -> mm_count k (_words3 s) = O ->
     removeWord k s = s)
  /\ removeWord k (removeWord k' s) = removeWord k' (removeWord k s).
Proof.
  split.
  - intros H H3. unfold removeWord; simpl.
    rewrite !mm_erase_absent by assumption. by destruct s.
  - unfold removeWord; simpl.
    by rewrite (mm_erase_comm k k' (_words s)),
      (mm_erase_comm k k' (_words3 s)).
Qed.

(** X19: after [removeAllWords] the node is bad and its similarity with
    any node, on either side, is [0.0f]; [removeWord] and [changeWordsRef]
    then change nothing, nor does a second [removeAllWords]. *)
Theorem removeAllWords_bad s (findPairs : pairer KeyPoint) (other : node)
    (a b : Z) :
  let s' := removeAllWords s in
  isBadSignature s' = true
  /\ compareTo findPairs s' other = F32.zero
  /\ compareTo findPairs other s' = F32.zero
  /\ removeWord a s' = s' /\ changeWordsRef a b s' = s'
  /\ removeAllWords s' = s'.
Proof.
  simpl. repeat split; try reflexivity.
  unfold compareTo. simpl. by rewrite andb_false_r.
Qed.

End WordExtras.

(** ** More on similarity and depth *)

Section PayloadExtras.
Context {Transform KeyPoint PointXYZ : Type}.
Local Abbreviation node := (Signature Transform KeyPoint PointXYZ).
Implicit Types (s this other : node) (findPairs : pairer KeyPoint).

(** X20: the similarity is the same in both directions as soon as the
    pairer returns as many pairs for the two word maps in either order. *)
Theorem compareTo_symmetric findPairs this other :
  length (findPairs (_words other) (_words this))
  = length (findPairs (_words this) (_words other)) ->
  compareTo findPairs this other = compareTo findPairs other this.
Proof.
  intros Hlen. unfold compareTo. rewrite Hlen, andb_comm.
  destruct (_ && _); [|reflexivity].
  f_equal. f_equal. f_equal.
  destruct (Z.gtb_spec (mm_size (_words this)) (mm_size (_words other))),
    (Z.gtb_spec (mm_size (_words other)) (mm_size (_words this))); lia.
Qed.

(** X21: of two [setDepth] in a row that both return, the node keeps only
    what the second stored: it is the node the second call alone gives. *)
Theorem setDepth_last_wins s s1 (d1 d2 : list byte)
    (fx1 fy1 cx1 cy1 fx2 fy2 cx2 cy2 : F32.float) :
  setDepth d1 fx1 fy1 cx1 cy1 s = Done s1 ->
  setDepth d2 fx2 fy2 cx2 cy2 s1 = setDepth d2 fx2 fy2 cx2 cy2 s.
Proof.
  unfold setDepth. destruct (_ || _); [|discriminate].
  intros [= <-]. destruct (_ || _); reflexivity.
Qed.

End PayloadExtras.

(** ** The further properties on concrete nodes *)

Lemma node0_ordered : mm_ordered (_words node0) /\ mm_ordered (_words3 node0).
Proof.
  unfold mm_ordered. simpl.
  split; repeat first [apply Sorted_cons | apply Sorted_nil
                      | apply HdRel_cons | apply HdRel_nil]; lia.
Qed.

Lemma addNeighbor_removeNeighbor_witness :
  _neighbors node12 !! 3 = None
  /\ _neighbors (removeNeighbor 3 (addNeighbor 3 30 node12)) = _neighbors node12
  /\ _neighborsModified (removeNeighbor 3 (addNeighbor 3 30 node12)) = true.
Proof.
  assert (H : _neighbors node12 !! 3 = None) by reflexivity.
  split; [exact H|]. exact (addNeighbor_removeNeighbor node12 3 30 H).
Defined.

Lemma adders_keep_edges_witness :
  (_neighbors node12 !! 2 = Some 20
   /\ _neighbors (addNeighbor 2 99 node12) !! 2 = Some 20
   /\ _neighbors (addNeighbors {[ 2 := 5; 3 := 30 ]} node12) !! 2 = Some 20)
  /\ (_loopClosureIds node12 !! 2 = Some 20
      /\ _loopClosureIds (addLoopClosureId 2 99 node12) !! 2 = Some 20)
  /\ (_childLoopClosureIds node12 !! 2 = Some 20
      /\ _childLoopClosureIds (addChildLoopClosureId 2 99 node12) !! 2
         = Some 20).
Proof.
  assert (Hn : _neighbors node12 !! 2 = Some 20) by reflexivity.
  assert (Hl : _loopClosureIds node12 !! 2 = Some 20) by reflexivity.
  assert (Hc : _childLoopClosureIds node12 !! 2 = Some 20) by reflexivity.
  pose proof (adders_keep_edges node12 2 2 99 20 {[ 2 := 5; 3 := 30 ]})
    as (An & Al & Ac).
  split; [split; [exact Hn|exact (An Hn)]|].
  split; [split; [exact Hl|exact (Al Hl)]|].
  split; [exact Hc|exact (Ac Hc)].
Defined.

Lemma changeNeighborIds_back_witness :
  _neighbors node12 !! 1 = Some 10 /\ _neighbors node12 !! 4 = None
  /\ _neighbors (changeNeighborIds 4 1 (changeNeighborIds 1 4 node12))
     = _neighbors node12.
Proof.
  assert (H1 : _neighbors node12 !! 1 = Some 10) by reflexivity.
  assert (H4 : _neighbors node12 !! 4 = None) by reflexivity.
  split; [exact H1|split; [exact H4|]].
  exact (changeNeighborIds_back node12 1 4 10 H1 H4).
Defined.

Lemma loop_closure_zero_key_witness :
  (_loopClosureIds node12 !! 0 = None
   /\ _loopClosureIds (addLoopClosureId 0 30 node12) !! 0 = None
   /\ (2 <> 0 /\ _loopClosureIds (changeLoopClosureId 1 2 node12) !! 0 = None)
   /\ (_loopClosureIds node12 !! 1 = Some 10
       /\ _loopClosureIds (changeLoopClosureId 1 0 node12) !! 0 = Some 10))
  /\ (_childLoopClosureIds node12 !! 0 = None
      /\ _childLoopClosureIds (addChildLoopClosureId 0 30 node12) !! 0 = None).
Proof.
  assert (H0 : _loopClosureIds node12 !! 0 = None) by reflexivity.
  assert (C0 : _childLoopClosureIds node12 !! 0 = None) by reflexivity.
  assert (H1 : _loopClosureIds node12 !! 1 = Some 10) by reflexivity.
  assert (Hne : 2 <> 0) by lia.
  pose proof (loop_closure_zero_key node12 0 2 30) as (A & B).
  pose proof (loop_closure_zero_key node12 1 2 30) as (A1 & _).
  destruct (A H0) as (Aa & _ & _). destruct (A1 H0) as (_ & Ab & Ac).
  split.
  - split; [exact H0|split; [exact Aa|split]].
    + split; [exact Hne|exact (Ab Hne)].
    + split; [exact H1|exact (Ac 10 H1)].
  - split; [exact C0|exact (B C0)].
Defined.

Lemma changeWordsRef_same_id_witness :
  (mm_ordered (_words node0) /\ mm_ordered (_words3 node0))
  /\ _words (changeWordsRef 5 5 node0) = _words node0
  /\ _words3 (changeWordsRef 5 5 node0) = _words3 node0
  /\ (mm_count 5 (_words node0) <> O
      /\ _wordsChanged (changeWordsRef 5 5 node0) = [(5, 5)])
  /\ (mm_count 6 (_words node0) = O /\ changeWordsRef 6 6 node0 = node0).
Proof.
  pose proof node0_ordered as [Hw Hw3].
  assert (H5 : mm_count 5 (_words node0) <> O) by (simpl; lia).
  assert (H6 : mm_count 6 (_words node0) = O) by reflexivity.
  pose proof (changeWordsRef_same_id node0 5 Hw Hw3) as (A & B & C & _).
  pose proof (changeWordsRef_same_id node0 6 Hw Hw3) as (_ & _ & _ & D).
  split; [split; assumption|].
  split; [exact A|split; [exact B|split]].
  - split; [exact H5|exact (C H5)].
  - split; [exact H6|exact (D H6)].
Defined.

Lemma changeWordsRef_values_in_order_witness :
  5 <> 7
  /\ (mm_ordered (_words node0) /\ mm_ordered (_words3 node0))
  /\ mm_count 5 (_words node0) <> O
  /\ uValues (_words (changeWordsRef 5 7 node0)) 7 = [70; 50]
  /\ uValues (_words3 (changeWordsRef 5 7 node0)) 7 = [71; 51].
Proof.
  pose proof node0_ordered as [Hw Hw3].
  assert (Hne : 5 <> 7) by lia.
  assert (H5 : mm_count 5 (_words node0) <> O) by (simpl; lia).
  split; [exact Hne|split; [split; assumption|split; [exact H5|]]].
  exact (changeWordsRef_values_in_order node0 5 7 Hne Hw Hw3 H5).
Defined.

Lemma changeWordsRef_back_witness :
  5 <> 9 /\ mm_count 5 (_words node0) <> O
  /\ mm_count 9 (_words node0) = O /\ mm_count 9 (_words3 node0) = O
  /\ uValues (_words (changeWordsRef 9 5 (changeWordsRef 5 9 node0))) 5
     ≡ₚ uValues (_words node0) 5
  /\ _wordsChanged (changeWordsRef 9 5 (changeWordsRef 5 9 node0))
     ≡ₚ (9, 5) :: (5, 9) :: _wordsChanged node0.
Proof.
  assert (Hne : 5 <> 9) by lia.
  assert (H5 : mm_count 5 (_words node0) <> O) by (simpl; lia).
  assert (H9 : mm_count 9 (_words node0) = O) by reflexivity.
  assert (H93 : mm_count 9 (_words3 node0) = O) by reflexivity.
  pose proof (changeWordsRef_back node0 5 9 Hne H5 H9 H93) as (A & B).
  split; [exact Hne|split; [exact H5|split; [exact H9|split; [exact H93|]]]].
  split; [exact (proj1 (A 5))|exact B].
Defined.

Lemma removeWord_erases_witness :
  mm_count 5 (_words (removeWord 5 node0)) = O
  /\ (7 <> 5 /\ uValues (_words (removeWord 5 node0)) 7 = [70]
      /\ uValues (_words3 (removeWord 5 node0)) 7 = [71])
  /\ mm_size (_words (removeWord 5 node0)) = 2 - 1.
Proof.
  assert (Hne : 7 <> 5) by lia.
  pose proof (removeWord_erases node0 5) as (A & _ & B & C & _).
  split; [exact A|split; [|exact C]].
  split; [exact Hne|exact (B 7 Hne)].
Defined.

Lemma removeWord_absent_comm_witness :
  mm_count 6 (_words node0) = O /\ mm_count 6 (_words3 node0) = O
  /\ removeWord 6 node0 = node0.
Proof.
  assert (H : mm_count 6 (_words node0) = O) by reflexivity.
  assert (H3 : mm_count 6 (_words3 node0) = O) by reflexivity.
  split; [exact H|split; [exact H3|]].
  exact (proj1 (removeWord_absent_comm node0 6 6) H H3).
Defined.

Lemma compareTo_symmetric_witness :
  length (sample_pairer (_words node1) (_words node0))
  = length (sample_pairer (_words node0) (_words node1))
  /\ compareTo sample_pairer node0 node1 = compareTo sample_pairer node1 node0.
Proof.
  assert (H : length (sample_pairer (_words node1) (_words node0))
              = length (sample_pairer (_words node0) (_words node1)))
    by reflexivity.
  split; [exact H|]. exact (compareTo_symmetric sample_pairer node0 node1 H).
Defined.

Lemma setDepth_last_wins_witness :
  setDepth [] F32.zero F32.zero F32.zero F32.zero node0
  = Done (set_depth [] node0)
  /\ setDepth depth3 (F32.of_Z 525) (F32.of_Z 525) (F32.of_Z 320)
       (F32.of_Z 240) (set_depth [] node0)
     = setDepth depth3 (F32.of_Z 525) (F32.of_Z 525) (F32.of_Z 320)
         (F32.of_Z 240) node0.
Proof.
  assert (H : setDepth [] F32.zero F32.zero F32.zero F32.zero node0
              = Done (set_depth [] node0)) by reflexivity.
  split; [exact H|].
  exact (setDepth_last_wins node0 (set_depth [] node0) [] depth3
           F32.zero F32.zero F32.zero F32.zero
           (F32.of_Z 525) (F32.of_Z 525) (F32.of_Z 320) (F32.of_Z 240) H).
Defined.

(** ** A word count that an [int] does not hold *)

Lemma repeat_S {A : Type} (x : A) (n : nat) :
  List.repeat x (S n) = x :: List.repeat x n.
Proof. reflexivity. Qed.

Lemma big_words_size : mm_size big_words = 2147483648.
Proof.
  unfold mm_size, big_words. rewrite List.repeat_length.
  apply Z2Nat.id. lia.
Qed.

Lemma big_words_first :
  big_words = (0, 0) :: List.repeat (0, 0) (Z.to_nat 2147483647).
Proof.
  unfold big_words.
  replace 2147483648 with (Z.succ 2147483647) by reflexivity.
  rewrite Z2Nat.inj_succ by lia.
  apply repeat_S.
Qed.

Lemma node_big_words : _words node_big = big_words.
Proof. lazy delta [node_big Signature_new _words] beta iota. exact eq_refl. Qed.

Lemma first_pairer_big : length (first_pairer [(0, 0)] big_words) = 1%nat.
Proof. rewrite big_words_first. lazy. exact eq_refl. Qed.

Lemma compareTo_unfold {Transform KeyPoint PointXYZ : Type}
    (findPairs : pairer KeyPoint)
    (this other : Signature Transform KeyPoint PointXYZ) :
  compareTo findPairs this other
  = if negb (mm_size (_words other) =? 0)
       && negb (mm_size (_words this) =? 0)
    then F32.div
           (F32.of_Z
              (Z.of_nat (length (findPairs (_words other) (_words this)))))
           (F32.of_Z
              (int_of_size
                 (if mm_size (_words this) >? mm_size (_words other)
                  then mm_size (_words this) else mm_size (_words other))))
    else F32.zero.
Proof. reflexivity. Qed.

(** C6, the claim as written fails: the first node has 2^31 words and the
    second one word, the pairer returns one pair; the larger count, kept in
    an [int], is -2^31, and [compareTo] is -2^-31, not 1 / 2^31. *)
Lemma compareTo_count_beyond_int :
  _words node_big <> [] /\ _words node_one <> []
  /\ length (first_pairer (_words node_one) (_words node_big)) = 1%nat
  /\ Z.max (mm_size (_words node_big)) (mm_size (_words node_one))
     = 2147483648
  /\ compareTo first_pairer node_big node_one
     = S754_finite true 8388608 (-54)
  /\ F32.div (F32.of_Z 1) (F32.of_Z 2147483648)
     = S754_finite false 8388608 (-54)
  /\ compareTo first_pairer node_big node_one
     <> F32.div
          (F32.of_Z
             (Z.of_nat
                (length (first_pairer (_words node_one) (_words node_big)))))
          (F32.of_Z
             (Z.max (mm_size (_words node_big)) (mm_size (_words node_one)))).
Proof.
  assert (Hc : compareTo first_pairer node_big node_one
               = S754_finite true 8388608 (-54)).
  { rewrite compareTo_unfold, node_big_words.
    change (_words node_one) with [((0, 0) : Z * Z)].
    rewrite first_pairer_big, big_words_size. lazy. exact eq_refl. }
  rewrite Hc, node_big_words.
  change (_words node_one) with [((0, 0) : Z * Z)].
  rewrite first_pairer_big, big_words_size.
  split; [rewrite big_words_first; discriminate|].
  split; [discriminate|]. split; [exact eq_refl|].
  split; [lazy; exact eq_refl|]. split; [exact eq_refl|].
  split; [lazy; exact eq_refl|]. lazy. discriminate.
Qed.
